(** * Kuration API workflow: the submit / poll / merge engine

    A shallow embedding of [KurationAPIProcessor] from
    [src/kuration_api_processor.py] and the properties its specification
    states about it.

    The network, the wall clock and the tabular library are the program's
    collaborators.  They are represented as follows.
    - Every HTTP exchange is answered by an oracle ([network]): it either
      raises (a [requests] exception) or hands back the decoded JSON body.
    - The wall clock enters the program only through the test of the polling
      loop; it is represented by the number of rounds that test lets through.
    - A pandas frame is a list of column labels and a list of rows, each row
      a finite map from labels to cells in which an absent label is a missing
      cell (NaN).
    Logging and the waits between rounds change nothing that the program
    computes and are left out. *)

From Stdlib Require Import ZArith String Ascii List.
From Stdlib Require Import Floats.PrimFloat.
From stdpp Require Import base option list gmap strings sorting.

#[local] Set Warnings "-register-all".

Local Open Scope string_scope.
Local Open Scope list_scope.

(** ** Python values *)

(** Values produced by [response.json()] and held in table cells.  A JSON
    object is kept as its association list (key order is that of the parsed
    dict, and the first binding of a key is the one [get] sees).  A [str] is
    a [string]: a sequence of code points below 256. *)
Inductive value : Type :=
| VNone
| VBool (b : bool)
| VInt (n : Z)
| VFloat (x : float)
| VStr (s : string)
| VList (l : list value)
| VDict (d : list (string * value)).

(** Exceptions that can leave the modelled code. *)
Inductive exn : Type :=
| RequestException (detail : string)
| Exception (message : string)
| AttributeError (attribute : string)
| KeyError (labels : list string)
| IndexError.

(** Computations that may raise. *)
Definition res (A : Type) : Type := (exn + A)%type.

Definition ret {A} (a : A) : res A := inr a.
Definition raise {A} (e : exn) : res A := inl e.
Definition bind {A B} (c : res A) (k : A -> res B) : res B :=
  match c with
  | inl e => inl e
  | inr a => k a
  end.

Notation "x <- c ;; k" := (bind c (fun x => k))
  (at level 100, c at next level, right associativity).

Definition raises {A} (c : res A) : Prop := exists e, c = inl e.

(** Truth value of a Python object, as tested by [if x:] and [not x]. *)
Definition truthy (v : value) : bool :=
  match v with
  | VNone => false
  | VBool b => b
  | VInt n => negb (n =? 0)%Z
  | VFloat x => negb (PrimFloat.eqb x PrimFloat.zero)
  | VStr s => negb (String.eqb s "")
  | VList l => match l with [] => false | _ => true end
  | VDict d => match d with [] => false | _ => true end
  end.

(** [d.get(key, default)] on a dict. *)
Fixpoint dict_get (d : list (string * value)) (key : string) (default : value) : value :=
  match d with
  | [] => default
  | (k, v) :: d' => if String.eqb k key then v else dict_get d' key default
  end.

(** [x.get(key, default)] on an arbitrary object: only a dict has [get]. *)
Definition py_get (x : value) (key : string) (default : value) : res value :=
  match x with
  | VDict d => ret (dict_get d key default)
  | _ => raise (AttributeError "get")
  end.

(** [str.isspace] on one character (code points below 256). *)
Definition isspace (c : ascii) : bool :=
  let n := N_of_ascii c in
  ((9 <=? n) && (n <=? 13) || (28 <=? n) && (n <=? 32) || (n =? 133) || (n =? 160))%N.

Fixpoint lstrip (s : string) : string :=
  match s with
  | EmptyString => EmptyString
  | String c s' => if isspace c then lstrip s' else s
  end.

Definition rstrip (s : string) : string := String.rev (lstrip (String.rev s)).

Definition strip (s : string) : string := rstrip (lstrip s).

(** [x.strip()] on an arbitrary object: only a [str] has [strip]. *)
Definition py_strip (x : value) : res string :=
  match x with
  | VStr s => ret (strip s)
  | _ => raise (AttributeError "strip")
  end.

(** ** Result extractor *)

(** The body of [for column in columns], with the two locals it updates. *)
Fixpoint for_column (columns : list value) (values : gmap string value)
    (is_still_loading : bool) : res (gmap string value * bool) :=
  match columns with
  | [] => ret (values, is_still_loading)
  | column :: rest =>
      name <- py_get column "column_name" (VStr "") ;;
      column_name <- py_strip name ;;
      if String.eqb column_name "" then for_column rest values is_still_loading
      else
        v <- py_get column "value" (VStr "") ;;
        pending <- py_get column "is_loading" (VBool false) ;;
        for_column rest (<[column_name := v]> values)
          (if truthy pending then true else is_still_loading)
  end.

Definition extract_column_values (result : value) : res (gmap string value * bool) :=
  let columns := match result with VList l => l | _ => [] end in
  for_column columns ∅ false.

(** ** Collaborators *)

(** The remote service.  [requests_post index company_name website_url] is
    the outcome of the POST to [save_company_data] made for the record at
    position [index]; [requests_get iteration position row_id] is the outcome
    of the GET made for [row_id] as the [position]-th poll of round
    [iteration].  [inl detail] stands for any exception of [requests]
    (connection failure, HTTP error status, undecodable body); [inr body] is
    the decoded JSON body. *)
Record network : Type := {
  requests_post : nat -> value -> value -> string + value;
  requests_get : nat -> nat -> string -> string + value }.

Definition http (r : string + value) : res value :=
  match r with
  | inl detail => raise (RequestException detail)
  | inr body => ret body
  end.

(** A pandas frame: its column labels and its rows.  A label absent from a
    row is a missing cell. *)
Record DataFrame : Type := {
  columns : list string;
  rows : list (gmap string value) }.

Definition cell (row : gmap string value) (label : string) : value :=
  default (VFloat PrimFloat.nan) (row !! label).

(** [row[label]] on a row of [df]. *)
Definition series_item (df : DataFrame) (row : gmap string value) (label : string) : res value :=
  if decide (label ∈ columns df) then ret (cell row label) else raise (KeyError [label]).

(** [row.to_dict()]: one entry per column of the frame. *)
Definition to_dict (df : DataFrame) (row : gmap string value) : gmap string value :=
  list_to_map ((fun label => (label, cell row label)) <$> columns df).

(** [pd.DataFrame(records)]: the labels are the keys met in the records. *)
Definition DataFrame_of_records (records : list (gmap string value)) : DataFrame :=
  {| columns := elements (⋃ (dom <$> records) : gset string); rows := records |}.

(** [df[key]] with a list of labels: every label must be a column. *)
Definition getitem_columns (df : DataFrame) (key : list string) : res DataFrame :=
  match filter (fun label => label ∉ columns df) key with
  | [] => ret {| columns := key;
                 rows := (fun row => filter (fun kv => kv.1 ∈ key) row) <$> rows df |}
  | missing => raise (KeyError missing)
  end.

(** [sorted] on a collection of [str]. *)
Definition sorted (l : list string) : list string := merge_sort String.le l.

Record company : Type := { company_name : value; website : value }.

Record result_entry : Type := { entry_row_id : string; entry_values : gmap string value }.

(** The locals of [process_csv] that the polling loop reads and writes. *)
Record locals : Type := {
  all_columns : gset string;
  results : list result_entry;
  loading_rows : list string;
  iteration : nat;
  still_loading : list string;
  updated_results : list result_entry }.

(** What a run leaves behind: the table handed to [to_csv], if any. *)
Definition output_file (run : res DataFrame) : option DataFrame :=
  match run with
  | inl _ => None
  | inr table => Some table
  end.

(** ** The processor *)

Section Processor.
(** [repr] is Python's rendering by [str] of a value that is not a [str]. *)
Variable repr : value -> string.
Variable net : network.

Definition py_str (x : value) : string :=
  match x with
  | VStr s => s
  | _ => repr x
  end.

Definition submit_company (index : nat) (company_data : company) : res string :=
  response_data <- http (requests_post net index (company_name company_data)
                           (website company_data)) ;;
  error_detail <- py_get response_data "error_detail" VNone ;;
  if truthy error_detail then raise (Exception "API Error")
  else
    row_id <- py_get response_data "row_id" VNone ;;
    if negb (truthy row_id) then raise (Exception "No row_id in response")
    else ret (py_str row_id).

Definition get_results (iteration position : nat) (row_id : string) : res value :=
  http (requests_get net iteration position row_id).

(** [for index, row in df.iterrows()]: submit all companies. *)
Fixpoint for_submit (df : DataFrame) (index : nat) (todo : list (gmap string value))
    (row_ids : list string) : res (list string) :=
  match todo with
  | [] => ret row_ids
  | row :: rest =>
      name <- series_item df row "company_name" ;;
      url <- series_item df row "website" ;;
      row_id <- submit_company index {| company_name := name; website := url |} ;;
      for_submit df (S index) rest (row_ids ++ [row_id])
  end.

(** Lines 151-152: fetch the raw result of one job and extract it. *)
Definition poll (iteration position : nat) (row_id : string)
    : res (gmap string value * bool) :=
  result <- get_results iteration position row_id ;;
  extract_column_values result.

(** The body of [for row_id in loading_rows]. *)
Definition poll_row (position : nat) (row_id : string) (st : locals) : res locals :=
  extracted <- poll (iteration st) position row_id ;;
  let '(values, is_loading) := extracted in
  ret {| all_columns := all_columns st ∪ dom values;
         results := results st;
         loading_rows := loading_rows st;
         iteration := iteration st;
         still_loading :=
           if is_loading then still_loading st ++ [row_id] else still_loading st;
         updated_results :=
           updated_results st
             ++ [{| entry_row_id := row_id; entry_values := values |}] |}.

Fixpoint for_row_id (position : nat) (todo : list string) (st : locals) : res locals :=
  match todo with
  | [] => ret st
  | row_id :: rest =>
      st' <- poll_row position row_id st ;;
      for_row_id (S position) rest st'
  end.

(** One pass through the body of the [while] loop. *)
Definition poll_round (st : locals) : res locals :=
  let entering :=
    {| all_columns := all_columns st;
       results := results st;
       loading_rows := loading_rows st;
       iteration := S (iteration st);
       still_loading := [];
       updated_results := [] |} in
  polled <- for_row_id 0 (loading_rows entering) entering ;;
  ret {| all_columns := all_columns polled;
         results := updated_results polled;
         loading_rows := still_loading polled;
         iteration := iteration polled;
         still_loading := still_loading polled;
         updated_results := updated_results polled |}.

(** [while loading_rows and (time.time() - start_time) < max_wait_time];
    [budget] is the number of further rounds the clock lets through. *)
Fixpoint while_loading (budget : nat) (st : locals) : res locals :=
  match budget with
  | O => ret st
  | S budget' =>
      match loading_rows st with
      | [] => ret st
      | _ :: _ => st' <- poll_round st ;; while_loading budget' st'
      end
  end.

(** A round of the loop as a transition between the states of the locals. *)
Definition round_step (st st' : locals) : Prop :=
  loading_rows st <> [] /\ poll_round st = inr st'.

(** The body of [for row in df.iterrows()] that prepares the final data. *)
Definition final_row (df : DataFrame) (row_ids : list string)
    (results : list result_entry) (index : nat) (row : gmap string value)
    : res (gmap string value) :=
  let row_data := to_dict df row in
  match row_ids !! index with
  | None => raise IndexError
  | Some row_id =>
      match List.find (fun r => bool_decide (entry_row_id r = row_id)) results with
      | Some result =>
          ret (<["row_id" := VStr (entry_row_id result)]> (entry_values result ∪ row_data))
      | None => ret row_data
      end
  end.

Fixpoint for_final (df : DataFrame) (row_ids : list string)
    (results : list result_entry) (index : nat) (todo : list (gmap string value))
    (final_data : list (gmap string value)) : res (list (gmap string value)) :=
  match todo with
  | [] => ret final_data
  | row :: rest =>
      row_data <- final_row df row_ids results index row ;;
      for_final df row_ids results (S index) rest (final_data ++ [row_data])
  end.

Definition final_cols (df : DataFrame) (all_columns : gset string) : list string :=
  let original_cols := columns df in
  let api_cols := sorted (elements (all_columns ∖ list_to_set original_cols ∖ {["row_id"]})) in
  original_cols ++ ["row_id"] ++ api_cols.

(** Lines 182-210: build the final frame, order its columns, save it. *)
Definition final_table (df : DataFrame) (row_ids : list string) (st : locals)
    : res DataFrame :=
  final_data <- for_final df row_ids (results st) 0 (rows df) [] ;;
  let final_df := DataFrame_of_records final_data in
  getitem_columns final_df (final_cols df (all_columns st)).

(** The locals when the loop is entered (lines 119-141). *)
Definition submitted (row_ids : list string) : locals :=
  {| all_columns := ∅;
     results := [];
     loading_rows := row_ids;
     iteration := 0;
     still_loading := [];
     updated_results := [] |}.

(** [process_csv]: [rounds_in_budget] is the number of rounds that the
    wall-clock test of the loop lets through in this run.  The value is the
    table written to the output file; a run that raises writes none. *)
Definition process_csv (rounds_in_budget : nat) (df : DataFrame) : res DataFrame :=
  row_ids <- for_submit df 0 (rows df) [] ;;
  st <- while_loading rounds_in_budget (submitted row_ids) ;;
  final_table df row_ids st.

(** The fields the final projection finds for a job (line 189). *)
Definition job_fields (st : locals) (row_id : string) : option (gmap string value) :=
  entry_values <$> List.find (fun r => bool_decide (entry_row_id r = row_id)) (results st).

End Processor.

(** ** Construction and entry point *)

(** The attributes set by [__init__]. *)
Record KurationAPIProcessor : Type := {
  base_url : string;
  api_key : string;
  chat_id : string;
  headers : gmap string string }.

(** The [ValueError] raised by [__init__]. *)
Inductive config_error : Type :=
| ValueError (message : string).

(** [os.getenv(name)] followed by [if not value]: the variable must be set
    and must not be the empty string.  [environ] is the process environment
    once [load_dotenv()] has run. *)
Definition required_env (environ : gmap string string) (name : string)
    : config_error + string :=
  match environ !! name with
  | Some text =>
      if String.eqb text "" then inl (ValueError (name +:+ " environment variable is required"))
      else inr text
  | None => inl (ValueError (name +:+ " environment variable is required"))
  end.

(** [KurationAPIProcessor.__init__]. *)
Definition init (environ : gmap string string) : config_error + KurationAPIProcessor :=
  match required_env environ "KURATION_API_KEY" with
  | inl e => inl e
  | inr key =>
      match required_env environ "KURATION_CHAT_ID" with
      | inl e => inl e
      | inr chat =>
          inr {| base_url := "https://apistaging.kurationai.com/api/enterprise";
                 api_key := key;
                 chat_id := chat;
                 headers := {[ "accept" := "application/json";
                               "kur-api-key" := key;
                               "Content-Type" := "application/json" ]} |}
      end
  end.

(** [main]: build the processor, then process [companies.csv], whose parsed
    content is [companies].  The outer layer is the failure of the
    constructor, the inner one the outcome of [process_csv]. *)
Definition main (environ : gmap string string) (repr : value -> string) (net : network)
    (rounds_in_budget : nat) (companies : DataFrame) : config_error + res DataFrame :=
  match init environ with
  | inl e => inl e
  | inr _ => inr (process_csv repr net rounds_in_budget companies)
  end.

(** ** The extractor's contract, in the words of the specification *)

(** A field descriptor is a mapping whose name, when it has one, is a string;
    a descriptor without a name has the empty name. *)
Definition descriptor_name (column : value) : option string :=
  match column with
  | VDict d =>
      match dict_get d "column_name" (VStr "") with
      | VStr s => Some s
      | _ => None
      end
  | _ => None
  end.

Definition is_descriptor (column : value) : Prop := is_Some (descriptor_name column).

Definition trimmed_name (column : value) : string :=
  strip (default "" (descriptor_name column)).

(** A descriptor is included when its trimmed name is not empty. *)
Definition included (column : value) : bool :=
  negb (String.eqb (trimmed_name column) "").

Definition descriptor_value (column : value) : value :=
  match column with
  | VDict d => dict_get d "value" (VStr "")
  | _ => VStr ""
  end.

Definition descriptor_pending (column : value) : bool :=
  match column with
  | VDict d => truthy (dict_get d "is_loading" (VBool false))
  | _ => false
  end.

Definition descriptor_entry (column : value) : string * value :=
  (trimmed_name column, descriptor_value column).

(** ** Reading a round *)

(** What one poll of a round saw. *)
Record observation : Type := {
  obs_row_id : string;
  obs_values : gmap string value;
  obs_is_loading : bool }.

(** The observations of the polls of one round, in polling order. *)
Fixpoint observe (net : network) (iteration position : nat) (todo : list string)
    : res (list observation) :=
  match todo with
  | [] => ret []
  | row_id :: rest =>
      extracted <- poll net iteration position row_id ;;
      others <- observe net iteration (S position) rest ;;
      ret ({| obs_row_id := row_id;
              obs_values := extracted.1;
              obs_is_loading := extracted.2 |} :: others)
  end.

Definition obs_keys (obs : list observation) : gset string :=
  ⋃ ((fun o => dom (obs_values o)) <$> obs).

Definition obs_entry (o : observation) : result_entry :=
  {| entry_row_id := obs_row_id o; entry_values := obs_values o |}.

Definition obs_loading (obs : list observation) : list string :=
  obs_row_id <$> List.filter obs_is_loading obs.

(** The locals after the polls [obs] have been recorded by [for_row_id]. *)
Definition record_observations (obs : list observation) (st : locals) : locals :=
  {| all_columns := all_columns st ∪ obs_keys obs;
     results := results st;
     loading_rows := loading_rows st;
     iteration := iteration st;
     still_loading := still_loading st ++ obs_loading obs;
     updated_results := updated_results st ++ (obs_entry <$> obs) |}.

(** ** Statements of the specification used below *)

(** The three ways in which the submission of the record at [index] fails:
    the transport raises, the body carries an application-level error, or
    the body carries no identifier. *)
Inductive submission_fails (net : network) (index : nat) (row : gmap string value) : Prop :=
| transport_failure (detail : string) :
    requests_post net index (cell row "company_name") (cell row "website") = inl detail ->
    submission_fails net index row
| application_error (d : list (string * value)) :
    requests_post net index (cell row "company_name") (cell row "website") = inr (VDict d) ->
    truthy (dict_get d "error_detail" VNone) = true ->
    submission_fails net index row
| missing_identifier (d : list (string * value)) :
    requests_post net index (cell row "company_name") (cell row "website") = inr (VDict d) ->
    truthy (dict_get d "row_id" VNone) = false ->
    submission_fails net index row.

(** The merge policy as the specification words it, for one round from [st]
    to [st']: a job with stored fields still has stored fields afterwards, in
    which every key extracted for it this round carries the extracted value
    and every key stored before and not extracted for it this round carries
    its previous value. *)
Definition additive_merge (net : network) (st st' : locals) : Prop :=
  forall (row_id : string) (old : gmap string value),
    job_fields st row_id = Some old ->
    exists new : gmap string value,
      job_fields st' row_id = Some new
      /\ (forall position values is_loading key v,
            loading_rows st !! position = Some row_id ->
            poll net (iteration st') position row_id = inr (values, is_loading) ->
            values !! key = Some v -> new !! key = Some v)
      /\ (forall key v,
            old !! key = Some v ->
            (forall position values is_loading,
               loading_rows st !! position = Some row_id ->
               poll net (iteration st') position row_id = inr (values, is_loading) ->
               values !! key = None) ->
            new !! key = Some v).

(** Ascending in the order of [str], without repetition. *)
Definition ascending (l : list string) : Prop := StronglySorted (strict String.le) l.

(** ** Sample payloads *)

(** A descriptor as the service sends it. *)
Definition column (name text : string) (pending : bool) : value :=
  VDict [("column_name", VStr name); ("value", VStr text); ("is_loading", VBool pending)].

Definition error_envelope : value := VDict [("error_detail", VStr "row not found")].

(** ** Sample runs *)

Definition repr_plain (x : value) : string := "<object>".

Definition company_row (name url : string) : gmap string value :=
  {[ "company_name" := VStr name; "website" := VStr url ]}.

Definition no_companies : DataFrame :=
  {| columns := ["company_name"; "website"]; rows := [] |}.

Definition one_company : DataFrame :=
  {| columns := ["company_name"; "website"];
     rows := [company_row "Acme" "acme.example"] |}.

Definition two_companies : DataFrame :=
  {| columns := ["company_name"; "website"];
     rows := [company_row "Acme" "acme.example"; company_row "Globex" "globex.example"] |}.

(** Every submission is accepted; the record at position [n] gets the
    identifier [row-n]. *)
Definition accept (index : nat) : string + value :=
  inr (VDict [("row_id", VStr match index with
                              | O => "row-0"
                              | S O => "row-1"
                              | _ => "row-n"
                              end)]).

(** One job whose first snapshot holds the pending field [industry] and whose
    second snapshot holds the resolved field [founded] only. *)
Definition net_two_snapshots : network :=
  {| requests_post := fun index _ _ => accept index;
     requests_get := fun iteration _ _ =>
       match iteration with
       | 1 => inr (VList [column "industry" "Software" true])
       | _ => inr (VList [column "founded" "1999" false])
       end |}.

(** Two jobs: [row-0] is resolved in round 1 with the fields [founded] and
    [industry]; [row-1] is still loading in round 1 and resolved in round 2,
    with the field [industry] only. *)
Definition net_uneven_columns : network :=
  {| requests_post := fun index _ _ => accept index;
     requests_get := fun iteration _ row_id =>
       match iteration with
       | 1 =>
           if String.eqb row_id "row-0"
           then inr (VList [column "founded" "1999" false; column "industry" "Software" false])
           else inr (VList [column "industry" "" true])
       | _ => inr (VList [column "industry" "Retail" false])
       end |}.

Definition uneven_round_1 : locals :=
  {| all_columns := {[ "founded"; "industry" ]};
     results :=
       [{| entry_row_id := "row-0";
           entry_values := {[ "founded" := VStr "1999"; "industry" := VStr "Software" ]} |};
        {| entry_row_id := "row-1"; entry_values := {[ "industry" := VStr "" ]} |}];
     loading_rows := ["row-1"];
     iteration := 1;
     still_loading := ["row-1"];
     updated_results :=
       [{| entry_row_id := "row-0";
           entry_values := {[ "founded" := VStr "1999"; "industry" := VStr "Software" ]} |};
        {| entry_row_id := "row-1"; entry_values := {[ "industry" := VStr "" ]} |}] |}.

Definition uneven_round_2 : locals :=
  {| all_columns := {[ "founded"; "industry" ]};
     results :=
       [{| entry_row_id := "row-1"; entry_values := {[ "industry" := VStr "Retail" ]} |}];
     loading_rows := [];
     iteration := 2;
     still_loading := [];
     updated_results :=
       [{| entry_row_id := "row-1"; entry_values := {[ "industry" := VStr "Retail" ]} |}] |}.

Definition snapshots_round_1 : locals :=
  {| all_columns := {[ "industry" ]};
     results :=
       [{| entry_row_id := "row-0"; entry_values := {[ "industry" := VStr "Software" ]} |}];
     loading_rows := ["row-0"];
     iteration := 1;
     still_loading := ["row-0"];
     updated_results :=
       [{| entry_row_id := "row-0"; entry_values := {[ "industry" := VStr "Software" ]} |}] |}.

Definition snapshots_round_2 : locals :=
  {| all_columns := {[ "founded"; "industry" ]};
     results :=
       [{| entry_row_id := "row-0"; entry_values := {[ "founded" := VStr "1999" ]} |}];
     loading_rows := [];
     iteration := 2;
     still_loading := [];
     updated_results :=
       [{| entry_row_id := "row-0"; entry_values := {[ "founded" := VStr "1999" ]} |}] |}.

(** Every job is resolved at its first poll, with the same two fields. *)
Definition net_all_resolved : network :=
  {| requests_post := fun index _ _ => accept index;
     requests_get := fun _ _ _ =>
       inr (VList [column "industry" "Software" false; column "founded" "1999" false]) |}.

(** The job never stops loading: every snapshot holds the resolved field
    [industry] and the pending field [founded]. *)
Definition net_never_resolves : network :=
  {| requests_post := fun index _ _ => accept index;
     requests_get := fun _ _ _ =>
       inr (VList [column "industry" "Software" false; column "founded" "" true]) |}.

(** The poll of round 2 meets a connection failure; in round 1 the job is
    still loading. *)
Definition net_second_poll_fails : network :=
  {| requests_post := fun index _ _ => accept index;
     requests_get := fun iteration _ _ =>
       match iteration with
       | 1 => inr (VList [column "industry" "Software" true])
       | _ => inl "read timed out"
       end |}.

Definition environ_complete : gmap string string :=
  {[ "KURATION_API_KEY" := "secret"; "KURATION_CHAT_ID" := "chat-7" ]}.

Definition environ_without_chat : gmap string string :=
  {[ "KURATION_API_KEY" := "secret"; "KURATION_CHAT_ID" := "" ]}.


(** The rows projected at the end of the run of [net_uneven_columns]. *)
Definition uneven_final_data : list (gmap string value) :=
  [company_row "Acme" "acme.example";
   {[ "company_name" := VStr "Globex"; "website" := VStr "globex.example";
      "industry" := VStr "Retail"; "row_id" := VStr "row-1" ]}].

(** The second submission meets a connection failure. *)
Definition net_second_submission_fails : network :=
  {| requests_post := fun index _ _ =>
       match index with
       | 1 => inl "connection refused"
       | _ => accept index
       end;
     requests_get := fun _ _ _ => inr (VList []) |}.

(** * Properties *)

(** ** Result extractor *)

Lemma bind_inr {A B} (c : res A) (k : A -> res B) (b : B) :
  bind c k = inr b -> exists a, c = inr a /\ k a = inr b.
Proof. destruct c as [e|a]; simpl; [discriminate | eauto]. Qed.

Lemma bind_raises {A B} (c : res A) (k : A -> res B) :
  raises c -> raises (bind c k).
Proof. intros [e ->]. exists e. reflexivity. Qed.

Lemma bind_raises_k {A B} (c : res A) (k : A -> res B) :
  (forall a, c = inr a -> raises (k a)) -> raises (bind c k).
Proof. destruct c as [e|a]; simpl; [exists e; reflexivity | auto]. Qed.

Lemma raises_not_inr {A} (c : res A) (a : A) : raises c -> c <> inr a.
Proof. intros [e ->]. discriminate. Qed.

(** One descriptor: either skipped, or recorded with its pending flag. *)
Lemma for_column_descriptor column rest values is_still_loading :
  is_descriptor column ->
  for_column (column :: rest) values is_still_loading =
    if included column
    then for_column rest (<[trimmed_name column := descriptor_value column]> values)
           (descriptor_pending column || is_still_loading)
    else for_column rest values is_still_loading.
Proof.
  intros [name Hname]. unfold included, trimmed_name. rewrite Hname.
  destruct column as [| | | | |l|d]; try discriminate Hname.
  simpl in *. destruct (dict_get d "column_name" (VStr "")); try discriminate Hname.
  injection Hname as ->. simpl.
  destruct (String.eqb (strip name) ""); simpl; [reflexivity|].
  destruct (truthy (dict_get d "is_loading" (VBool false))); reflexivity.
Qed.

Lemma for_column_descriptors columns values is_still_loading :
  Forall is_descriptor columns ->
  for_column columns values is_still_loading =
    inr (fold_left (fun m column => <[trimmed_name column := descriptor_value column]> m)
           (List.filter included columns) values,
         is_still_loading || existsb descriptor_pending (List.filter included columns)).
Proof.
  intros Hall. revert values is_still_loading.
  induction Hall as [|column rest Hcol _ IH]; intros values flag.
  - simpl. by rewrite orb_false_r.
  - rewrite for_column_descriptor by done. simpl List.filter.
    destruct (included column); [|apply IH].
    rewrite IH. simpl. do 2 f_equal.
    by destruct (descriptor_pending column), flag.
Qed.

Lemma fold_left_insert_entries (kept : list value) (values : gmap string value) :
  fold_left (fun m column => <[trimmed_name column := descriptor_value column]> m) kept values
  = list_to_map (reverse (descriptor_entry <$> kept)) ∪ values.
Proof.
  revert values. induction kept as [|column kept IH]; intros values.
  - simpl. by rewrite (left_id_L ∅ (∪)).
  - cbn [fold_left]. rewrite IH, fmap_cons, reverse_cons, list_to_map_app.
    rewrite <- (assoc_L (∪)). f_equal. cbn [list_to_map foldr descriptor_entry fst snd].
    by rewrite <- insert_union_l, (left_id_L ∅ (∪)).
Qed.

(** The non-list case: no loop iteration takes place. *)
Lemma extract_not_list (result : value) :
  (forall l, result <> VList l) -> extract_column_values result = inr (∅, false).
Proof.
  intros Hshape. destruct result; try reflexivity. by destruct (Hshape l).
Qed.

Lemma for_column_bad_element columns values is_still_loading :
  Exists (fun column => ~ is_descriptor column) columns ->
  raises (for_column columns values is_still_loading).
Proof.
  intros Hbad. revert values is_still_loading.
  induction Hbad as [column rest Hcol|column rest _ IH]; intros values flag.
  - cbn [for_column]. unfold is_descriptor, descriptor_name in Hcol.
    destruct column as [| | | | |l|d]; try (eexists; reflexivity).
    cbn [py_get bind ret].
    destruct (dict_get d "column_name" (VStr "")); try (eexists; reflexivity).
    destruct Hcol. by eexists.
  - cbn [for_column]. apply bind_raises_k; intros name _.
    apply bind_raises_k; intros column_name _.
    destruct (String.eqb column_name ""); [apply IH|].
    apply bind_raises_k; intros v _. apply bind_raises_k; intros pending _. apply IH.
Qed.

(** C6. A raw payload that is not a sequence (an error envelope, any
    non-list object) makes the extractor return the empty mapping and
    [is_loading = False]; no exception is raised. *)
Theorem extractor_lenient_fallback (result : value) :
  (forall l, result <> VList l) ->
  extract_column_values result = inr (∅, false)
  /\ ~ raises (extract_column_values result).
Proof.
  intros Hshape. rewrite (extract_not_list _ Hshape). split; [reflexivity|].
  intros [e He]. discriminate He.
Qed.

Lemma extractor_lenient_fallback_witness :
  (forall l, error_envelope <> VList l)
  /\ extract_column_values error_envelope = inr (∅, false)
  /\ ~ raises (extract_column_values error_envelope).
Proof.
  assert (Hshape : forall l, error_envelope <> VList l) by (intros l; discriminate).
  split; [exact Hshape | exact (extractor_lenient_fallback error_envelope Hshape)].
Defined.

(** C7. On a sequence of field descriptors the extractor trims each name,
    skips every descriptor whose trimmed name is empty (it adds no entry and
    does not count toward the loading flag), and returns as loading flag the
    disjunction of the pending flags of exactly the included descriptors.
    The mapping holds, under each trimmed name, the value of the last
    included descriptor of that name. *)
Theorem extractor_on_descriptors (columns : list value) :
  Forall is_descriptor columns ->
  exists values : gmap string value,
    extract_column_values (VList columns)
      = inr (values, existsb descriptor_pending (List.filter included columns))
    /\ values = list_to_map (reverse (descriptor_entry <$> List.filter included columns))
    /\ (forall key : string,
          key ∈ dom values <->
          exists column, column ∈ columns /\ included column = true
                         /\ trimmed_name column = key).
Proof.
  intros Hall. eexists. split; [|split; [reflexivity|]].
  - unfold extract_column_values. rewrite for_column_descriptors by done.
    rewrite fold_left_insert_entries, (right_id_L ∅ (∪)). reflexivity.
  - intros key. rewrite dom_list_to_map_L, elem_of_list_to_set.
    rewrite list_elem_of_fmap. split.
    + intros [[k v] [-> Hin]]. apply elem_of_reverse, list_elem_of_fmap in Hin.
      destruct Hin as [column [[= -> ->] Hin]].
      apply list_elem_of_In, filter_In in Hin as [Hin Hkept].
      exists column. by rewrite list_elem_of_In.
    + intros (column & Hin & Hkept & <-). exists (descriptor_entry column).
      split; [reflexivity|]. apply elem_of_reverse, list_elem_of_fmap.
      exists column. split; [reflexivity|].
      apply list_elem_of_In, filter_In. by rewrite <- list_elem_of_In.
Qed.

Lemma extractor_on_descriptors_witness :
  Forall is_descriptor
    [column " industry " "Software" false; column "   " "ignored" true;
     column "founded" "" true]
  /\ exists values : gmap string value,
       extract_column_values
         (VList [column " industry " "Software" false; column "   " "ignored" true;
                 column "founded" "" true])
       = inr (values, true)
       /\ values = {[ "industry" := VStr "Software"; "founded" := VStr "" ]}.
Proof.
  assert (Hall : Forall is_descriptor
    [column " industry " "Software" false; column "   " "ignored" true;
     column "founded" "" true]).
  { repeat constructor; by eexists. }
  split; [exact Hall|].
  destruct (extractor_on_descriptors _ Hall) as (values & Hrun & Hvalues & _).
  exists values. split; [exact Hrun|].
  rewrite Hvalues. apply map_eq. intros key. vm_compute list_to_map. reflexivity.
Defined.

(** C10. The lenient fallback is only for the top level of the payload: on
    a list holding an element that is not a field descriptor (not a mapping,
    or a mapping whose name is not a string) the extractor raises; it neither
    skips the element nor returns the empty-mapping fallback. *)
Theorem extractor_raises_on_bad_element (columns : list value) :
  Exists (fun column => ~ is_descriptor column) columns ->
  raises (extract_column_values (VList columns))
  /\ extract_column_values (VList columns) <> inr (∅, false).
Proof.
  intros Hbad.
  assert (Hraises : raises (extract_column_values (VList columns))).
  { by apply for_column_bad_element. }
  split; [exact Hraises | by apply raises_not_inr].
Qed.

Lemma extractor_raises_on_bad_element_witness :
  Exists (fun column => ~ is_descriptor column)
    [column "industry" "Software" false; VStr "unexpected"]
  /\ raises (extract_column_values
               (VList [column "industry" "Software" false; VStr "unexpected"])).
Proof.
  assert (Hbad : Exists (fun column => ~ is_descriptor column)
                   [column "industry" "Software" false; VStr "unexpected"]).
  { apply Exists_cons_tl, Exists_cons_hd. intros [name Hname]. discriminate Hname. }
  split; [exact Hbad | exact (proj1 (extractor_raises_on_bad_element _ Hbad))].
Defined.

(** ** The polling loop *)

Section Polling.
Variable net : network.

Lemma poll_row_inv position row_id st st' :
  poll_row net position row_id st = inr st' ->
  exists values is_loading,
    poll net (iteration st) position row_id = inr (values, is_loading)
    /\ st' = record_observations
               [{| obs_row_id := row_id; obs_values := values;
                   obs_is_loading := is_loading |}] st.
Proof.
  unfold poll_row. intros Hrun. apply bind_inr in Hrun as ([values is_loading] & Hpoll & Hret).
  exists values, is_loading. split; [exact Hpoll|].
  injection Hret as <-. unfold record_observations, obs_keys, obs_loading. simpl.
  rewrite (right_id_L ∅ (∪)). destruct is_loading; simpl; by rewrite ?app_nil_r.
Qed.

Lemma record_observations_cons o obs st :
  record_observations (o :: obs) st = record_observations obs (record_observations [o] st).
Proof.
  unfold record_observations, obs_keys, obs_loading. simpl.
  rewrite (right_id_L ∅ (∪)), (assoc_L (∪)), <- !app_assoc. f_equal.
  destruct (obs_is_loading o); simpl; by rewrite ?app_nil_r.
Qed.

Lemma record_observations_nil st : record_observations [] st = st.
Proof.
  destruct st. unfold record_observations, obs_keys, obs_loading. simpl.
  by rewrite (right_id_L ∅ (∪)), !app_nil_r.
Qed.

(** The [for] loop records, in order, what each of its polls observes. *)
Lemma for_row_id_observe position todo st :
  for_row_id net position todo st =
    (obs <- observe net (iteration st) position todo ;; ret (record_observations obs st)).
Proof.
  revert position st. induction todo as [|row_id rest IH]; intros position st.
  - simpl. by rewrite record_observations_nil.
  - cbn [for_row_id observe].
    destruct (poll_row net position row_id st) as [e|st1] eqn:Hrow.
    + unfold poll_row in Hrow.
      destruct (poll net (iteration st) position row_id) as [e'|[values is_loading]];
        simpl in *; [|discriminate]. by injection Hrow as ->.
    + apply poll_row_inv in Hrow as (values & is_loading & -> & ->).
      cbn [bind]. rewrite IH. cbn [iteration record_observations fst snd].
      destruct (observe net (iteration st) (S position) rest) as [e|obs]; [reflexivity|].
      cbn [bind ret]. by rewrite (record_observations_cons _ obs).
Qed.

Lemma observe_row_ids iteration position todo obs :
  observe net iteration position todo = inr obs -> obs_row_id <$> obs = todo.
Proof.
  revert position obs. induction todo as [|row_id rest IH]; intros position obs Hobs.
  - by injection Hobs as <-.
  - cbn [observe] in Hobs. apply bind_inr in Hobs as (extracted & _ & Hobs).
    apply bind_inr in Hobs as (others & Hrest & Hret). injection Hret as <-.
    rewrite fmap_cons. simpl. f_equal. eauto.
Qed.

Lemma observe_lookup iteration position todo obs i o :
  observe net iteration position todo = inr obs ->
  obs !! i = Some o ->
  poll net iteration (position + i) (obs_row_id o) = inr (obs_values o, obs_is_loading o).
Proof.
  revert position obs i. induction todo as [|row_id rest IH]; intros position obs i Hobs Hi.
  - injection Hobs as <-. by rewrite lookup_nil in Hi.
  - cbn [observe] in Hobs. apply bind_inr in Hobs as ([values flag] & Hpoll & Hobs).
    apply bind_inr in Hobs as (others & Hrest & Hret). injection Hret as <-.
    destruct i as [|i]; simpl in Hi.
    + injection Hi as <-. simpl. by rewrite Nat.add_0_r.
    + rewrite Nat.add_succ_r, <- Nat.add_succ_l. eauto.
Qed.

Lemma observe_polled iteration position todo obs i row_id :
  observe net iteration position todo = inr obs ->
  todo !! i = Some row_id ->
  exists values is_loading,
    obs !! i = Some {| obs_row_id := row_id; obs_values := values;
                       obs_is_loading := is_loading |}
    /\ poll net iteration (position + i) row_id = inr (values, is_loading).
Proof.
  intros Hobs Hi. rewrite <- (observe_row_ids _ _ _ _ Hobs) in Hi.
  apply list_lookup_fmap_Some in Hi as ([id values flag] & Hid & Ho). simpl in Hid. subst id.
  exists values, flag. split; [done|]. by apply (observe_lookup _ _ _ _ _ _ Hobs Ho).
Qed.

(** A round replaces [results] and [loading_rows] by what its polls yield. *)
Lemma round_step_inv st st' :
  round_step net st st' ->
  exists obs,
    observe net (S (iteration st)) 0 (loading_rows st) = inr obs
    /\ st' = {| all_columns := all_columns st ∪ obs_keys obs;
                results := obs_entry <$> obs;
                loading_rows := obs_loading obs;
                iteration := S (iteration st);
                still_loading := obs_loading obs;
                updated_results := obs_entry <$> obs |}.
Proof.
  intros [_ Hround]. unfold poll_round in Hround. rewrite for_row_id_observe in Hround.
  cbn [iteration loading_rows] in Hround.
  destruct (observe net (S (iteration st)) 0 (loading_rows st)) as [e|obs]; [discriminate|].
  exists obs. split; [reflexivity|]. by injection Hround as <-.
Qed.

Lemma obs_loading_subseteq obs : obs_loading obs ⊆ obs_row_id <$> obs.
Proof.
  intros row_id Hin. unfold obs_loading in Hin.
  apply list_elem_of_fmap in Hin as (o & -> & Hin).
  apply list_elem_of_In, filter_In in Hin as [Hin _].
  apply list_elem_of_fmap. exists o. by rewrite list_elem_of_In.
Qed.

Lemma round_step_loading st st' :
  round_step net st st' -> loading_rows st' ⊆ loading_rows st.
Proof.
  intros (obs & Hobs & ->)%round_step_inv. simpl.
  rewrite <- (observe_row_ids _ _ _ _ Hobs). apply obs_loading_subseteq.
Qed.

Lemma rounds_loading st st' :
  rtc (round_step net) st st' -> loading_rows st' ⊆ loading_rows st.
Proof.
  induction 1 as [|st st1 st' Hstep _ IH]; [done|].
  etrans; [exact IH | by apply round_step_loading].
Qed.

Lemma round_step_all_columns st st' :
  round_step net st st' -> all_columns st ⊆ all_columns st'.
Proof. intros (obs & _ & ->)%round_step_inv. simpl. set_solver. Qed.

Lemma rounds_all_columns st st' :
  rtc (round_step net) st st' -> all_columns st ⊆ all_columns st'.
Proof.
  induction 1 as [|st st1 st' Hstep _ IH]; [done|].
  etrans; [by apply round_step_all_columns | exact IH].
Qed.

(** The loop performs rounds, one after the other. *)
Lemma while_loading_rounds budget st st' :
  while_loading net budget st = inr st' -> rtc (round_step net) st st'.
Proof.
  revert st. induction budget as [|budget IH]; intros st Hloop; simpl in Hloop.
  - injection Hloop as <-. done.
  - destruct (loading_rows st) as [|row_id rest] eqn:Hrows.
    + injection Hloop as <-. done.
    + apply bind_inr in Hloop as (st1 & Hround & Hloop).
      apply rtc_l with st1; [|by apply IH].
      split; [by rewrite Hrows | done].
Qed.

End Polling.

Lemma find_by_row_id (entries : list result_entry) (i : nat) (entry : result_entry) :
  NoDup (entry_row_id <$> entries) ->
  entries !! i = Some entry ->
  List.find (fun r => bool_decide (entry_row_id r = entry_row_id entry)) entries = Some entry.
Proof.
  revert i. induction entries as [|r entries IH]; intros i Hnodup Hi.
  - by rewrite lookup_nil in Hi.
  - rewrite fmap_cons in Hnodup. apply NoDup_cons in Hnodup as [Hfresh Hnodup].
    destruct i as [|i]; simpl in *.
    + injection Hi as ->. by rewrite bool_decide_eq_true_2.
    + rewrite bool_decide_eq_false_2; [by eapply IH|].
      intros Heq. apply Hfresh. rewrite Heq.
      apply list_elem_of_fmap. exists entry. split; [done|].
      by eapply list_elem_of_lookup_2.
Qed.

Lemma obs_entry_row_ids (obs : list observation) :
  entry_row_id <$> (obs_entry <$> obs) = obs_row_id <$> obs.
Proof. induction obs as [|o obs IH]; [done|]. rewrite !fmap_cons. by f_equal. Qed.

Lemma obs_not_loading (net : network) iteration todo obs row_id :
  observe net iteration 0 todo = inr obs ->
  (forall position values is_loading,
     todo !! position = Some row_id ->
     poll net iteration position row_id = inr (values, is_loading) ->
     is_loading = false) ->
  row_id ∉ obs_loading obs.
Proof.
  intros Hobs Hresolved Hin. unfold obs_loading in Hin.
  apply list_elem_of_fmap in Hin as (o & -> & Hin).
  apply list_elem_of_In, filter_In in Hin as [Hin Hflag].
  apply list_elem_of_In, list_elem_of_lookup in Hin as [i Hi].
  assert (Htodo : todo !! i = Some (obs_row_id o)).
  { rewrite <- (observe_row_ids _ _ _ _ _ Hobs), list_lookup_fmap, Hi. done. }
  pose proof (observe_lookup _ _ _ _ _ _ _ Hobs Hi) as Hpoll.
  rewrite (Hresolved _ _ _ Htodo Hpoll) in Hflag. discriminate.
Qed.

(** C9. The set of observed field names only grows.  Each poll leaves it
    equal to its previous value united with the keys extracted by that poll,
    and over any sequence of rounds, and over the whole loop, no name is
    removed, whatever later polls return. *)
Theorem all_columns_only_grows (net : network) :
  (forall position row_id st st',
     poll_row net position row_id st = inr st' ->
     exists values is_loading,
       poll net (iteration st) position row_id = inr (values, is_loading)
       /\ all_columns st' = all_columns st ∪ dom values)
  /\ (forall st st', rtc (round_step net) st st' -> all_columns st ⊆ all_columns st')
  /\ (forall budget st st',
        while_loading net budget st = inr st' -> all_columns st ⊆ all_columns st').
Proof.
  split; [|split].
  - intros position row_id st st' Hrow.
    apply poll_row_inv in Hrow as (values & is_loading & Hpoll & ->).
    exists values, is_loading. split; [done|].
    unfold record_observations, obs_keys. simpl. by rewrite (right_id_L ∅ (∪)).
  - apply rounds_all_columns.
  - intros budget st st' Hloop. by eapply rounds_all_columns, while_loading_rounds.
Qed.

Lemma all_columns_only_grows_witness :
  exists st st' : locals,
    while_loading net_two_snapshots 1 (submitted ["row-0"]) = inr st
    /\ while_loading net_two_snapshots 1 st = inr st'
    /\ "industry" ∈ all_columns st
    /\ job_fields st' "row-0" = Some {[ "founded" := VStr "1999" ]}
    /\ all_columns st ⊆ all_columns st'.
Proof.
  eexists. eexists.
  split; [vm_compute; reflexivity|].
  split; [vm_compute; reflexivity|].
  split; [vm_compute; set_solver|].
  split; [vm_compute; reflexivity|].
  apply (proj2 (proj2 (all_columns_only_grows net_two_snapshots)) 1).
  vm_compute. reflexivity.
Defined.

(** C4. Resolution is permanent.  If in some round every poll of a job in
    the loading set reports it as not loading, then in every later round of
    the run the job is not in the loading set, and it is not among the jobs
    that round polls. *)
Theorem resolved_job_never_repolled (net : network) (st_k st_k' st_m : locals)
    (row_id : string) :
  round_step net st_k st_k' ->
  row_id ∈ loading_rows st_k ->
  (forall position values is_loading,
     loading_rows st_k !! position = Some row_id ->
     poll net (iteration st_k') position row_id = inr (values, is_loading) ->
     is_loading = false) ->
  rtc (round_step net) st_k' st_m ->
  (row_id ∉ loading_rows st_m)
  /\ (forall st_m', round_step net st_m st_m' ->
        row_id ∉ (entry_row_id <$> results st_m')).
Proof.
  intros Hstep _ Hresolved Hlater.
  assert (Hgone : row_id ∉ loading_rows st_m).
  { intros Hin. apply (rounds_loading _ _ _ Hlater) in Hin.
    apply round_step_inv in Hstep as (obs & Hobs & ->). simpl in *.
    by apply (obs_not_loading _ _ _ _ _ Hobs Hresolved). }
  split; [exact Hgone|].
  intros st_m' (obs & Hobs & ->)%round_step_inv. simpl.
  by rewrite obs_entry_row_ids, (observe_row_ids _ _ _ _ _ Hobs).
Qed.

Lemma resolved_job_never_repolled_witness :
  round_step net_uneven_columns (submitted ["row-0"; "row-1"]) uneven_round_1
  /\ round_step net_uneven_columns uneven_round_1 uneven_round_2
  /\ ("row-0" ∈ loading_rows (submitted ["row-0"; "row-1"]))
  /\ ("row-0" ∉ loading_rows uneven_round_1)
  /\ ("row-0" ∉ (entry_row_id <$> results uneven_round_2)).
Proof.
  assert (Hround1 : round_step net_uneven_columns (submitted ["row-0"; "row-1"])
                      uneven_round_1).
  { split; [discriminate | vm_compute; reflexivity]. }
  assert (Hround2 : round_step net_uneven_columns uneven_round_1 uneven_round_2).
  { split; [discriminate | vm_compute; reflexivity]. }
  assert (Hin : "row-0" ∈ loading_rows (submitted ["row-0"; "row-1"])).
  { simpl. apply list_elem_of_here. }
  assert (Hresolved : forall position values is_loading,
            loading_rows (submitted ["row-0"; "row-1"]) !! position = Some "row-0" ->
            poll net_uneven_columns (iteration uneven_round_1) position "row-0"
              = inr (values, is_loading) ->
            is_loading = false).
  { intros [|[|position]] values is_loading Hpos Hpoll; simpl in Hpos; try discriminate.
    vm_compute in Hpoll. by injection Hpoll. }
  destruct (resolved_job_never_repolled net_uneven_columns _ _ uneven_round_1 "row-0"
              Hround1 Hin Hresolved (rtc_refl _ _)) as [Hgone Hpolled].
  split; [exact Hround1|]. split; [exact Hround2|]. split; [exact Hin|].
  split; [exact Hgone | exact (Hpolled _ Hround2)].
Defined.

(** C1, as amended.  Every poll of a round stores, at the job's place in
    [results], exactly the mapping extracted by that poll: the mapping stored
    for the job before is replaced as a whole, so that a key stored earlier
    and absent from this extraction is no longer stored.  When the job
    identifiers of the round are distinct, this mapping is the one the final
    projection finds for the job. *)
Theorem poll_stores_snapshot (net : network) (st st' : locals) (position : nat)
    (row_id : string) :
  round_step net st st' ->
  loading_rows st !! position = Some row_id ->
  exists values is_loading,
    poll net (iteration st') position row_id = inr (values, is_loading)
    /\ results st' !! position
        = Some {| entry_row_id := row_id; entry_values := values |}
    /\ (NoDup (loading_rows st) -> job_fields st' row_id = Some values).
Proof.
  intros (obs & Hobs & ->)%round_step_inv Hpos. cbn [iteration results].
  destruct (observe_polled _ _ _ _ _ _ _ Hobs Hpos) as (values & is_loading & Ho & Hpoll).
  exists values, is_loading. split; [exact Hpoll|].
  assert (Hentry : (obs_entry <$> obs) !! position
                   = Some {| entry_row_id := row_id; entry_values := values |}).
  { by rewrite list_lookup_fmap, Ho. }
  split; [exact Hentry|].
  intros Hnodup. unfold job_fields. cbn [results].
  rewrite <- (observe_row_ids _ _ _ _ _ Hobs), <- obs_entry_row_ids in Hnodup.
  pose proof (find_by_row_id _ _ _ Hnodup Hentry) as Hfind. cbn [entry_row_id] in Hfind.
  by rewrite Hfind.
Qed.

Lemma poll_stores_snapshot_witness :
  round_step net_two_snapshots snapshots_round_1 snapshots_round_2
  /\ loading_rows snapshots_round_1 !! 0 = Some "row-0"
  /\ exists values is_loading,
       poll net_two_snapshots (iteration snapshots_round_2) 0 "row-0"
         = inr (values, is_loading)
       /\ results snapshots_round_2 !! 0
           = Some {| entry_row_id := "row-0"; entry_values := values |}.
Proof.
  assert (Hround : round_step net_two_snapshots snapshots_round_1 snapshots_round_2).
  { split; [discriminate | vm_compute; reflexivity]. }
  split; [exact Hround|]. split; [reflexivity|].
  destruct (poll_stores_snapshot net_two_snapshots _ _ 0 "row-0" Hround eq_refl)
    as (values & is_loading & Hpoll & Hentry & _).
  by exists values, is_loading.
Defined.

(** C1, as stated, fails: the job of [net_two_snapshots] has the field
    [industry] stored after round 1; round 2 extracts [founded] only, and
    afterwards [industry] is no longer stored for the job. *)
Lemma merge_is_not_additive :
  rtc (round_step net_two_snapshots) (submitted ["row-0"]) snapshots_round_1
  /\ round_step net_two_snapshots snapshots_round_1 snapshots_round_2
  /\ ~ additive_merge net_two_snapshots snapshots_round_1 snapshots_round_2.
Proof.
  split; [|split].
  - apply rtc_once. split; [discriminate | vm_compute; reflexivity].
  - split; [discriminate | vm_compute; reflexivity].
  - intros Hmerge.
    destruct (Hmerge "row-0" {[ "industry" := VStr "Software" ]})
      as (new & Hnew & _ & Hkept); [vm_compute; reflexivity|].
    assert (Hlost : new !! "industry" = None).
    { vm_compute in Hnew. injection Hnew as <-. vm_compute. reflexivity. }
    rewrite (Hkept "industry" (VStr "Software")) in Hlost; [discriminate|vm_compute; reflexivity|].
    intros position values is_loading _ Hpoll.
    vm_compute in Hpoll. injection Hpoll as <- _. vm_compute. reflexivity.
Qed.

(** ** Submission *)

Section Submission.
Variable repr : value -> string.
Variable net : network.

Lemma submit_company_fails index row :
  submission_fails net index row ->
  raises (submit_company repr net index
            {| company_name := cell row "company_name"; website := cell row "website" |}).
Proof.
  unfold submit_company. cbn [company_name website].
  intros [detail Hpost|d Hpost Herror|d Hpost Hmissing]; rewrite Hpost; cbn.
  - by eexists.
  - rewrite Herror. by eexists.
  - destruct (truthy (dict_get d "error_detail" VNone)); [by eexists|].
    rewrite Hmissing. by eexists.
Qed.

Lemma for_submit_fails df index todo row_ids i row :
  todo !! i = Some row ->
  submission_fails net (index + i) row ->
  raises (for_submit repr net df index todo row_ids).
Proof.
  revert index row_ids i. induction todo as [|first rest IH]; intros index row_ids i Hi Hfails.
  - by rewrite lookup_nil in Hi.
  - cbn [for_submit]. destruct i as [|i]; simpl in Hi.
    + injection Hi as ->. rewrite Nat.add_0_r in Hfails.
      apply bind_raises_k. intros name Hname. apply bind_raises_k. intros url Hurl.
      apply bind_raises. unfold series_item in Hname, Hurl.
      repeat case_decide; try discriminate.
      injection Hname as <-. injection Hurl as <-. by apply submit_company_fails.
    + apply bind_raises_k. intros name _. apply bind_raises_k. intros url _.
      apply bind_raises_k. intros row_id _.
      apply (IH (S index) _ i); [done|]. by rewrite Nat.add_succ_l, <- Nat.add_succ_r.
Qed.

(** C8. If the submission of any record fails (the transport raises, the
    body carries an application-level error, or it carries no identifier),
    the run raises and writes no output, whatever happened to the records
    submitted before it. *)
Theorem submission_failure_aborts (rounds_in_budget : nat) (df : DataFrame)
    (index : nat) (row : gmap string value) :
  rows df !! index = Some row ->
  submission_fails net index row ->
  raises (process_csv repr net rounds_in_budget df)
  /\ output_file (process_csv repr net rounds_in_budget df) = None.
Proof.
  intros Hrow Hfails.
  assert (Hraises : raises (process_csv repr net rounds_in_budget df)).
  { unfold process_csv. apply bind_raises. by apply (for_submit_fails df 0 _ _ index row). }
  split; [exact Hraises|]. destruct Hraises as [e ->]. reflexivity.
Qed.

End Submission.

Lemma submission_failure_aborts_witness :
  rows two_companies !! 1 = Some (company_row "Globex" "globex.example")
  /\ submission_fails net_second_submission_fails 1 (company_row "Globex" "globex.example")
  /\ submit_company repr_plain net_second_submission_fails 0
       {| company_name := VStr "Acme"; website := VStr "acme.example" |} = inr "row-0"
  /\ raises (process_csv repr_plain net_second_submission_fails 3 two_companies)
  /\ output_file (process_csv repr_plain net_second_submission_fails 3 two_companies) = None.
Proof.
  assert (Hfails : submission_fails net_second_submission_fails 1
                     (company_row "Globex" "globex.example")).
  { by apply transport_failure with "connection refused". }
  split; [reflexivity|]. split; [exact Hfails|]. split; [reflexivity|].
  exact (submission_failure_aborts repr_plain net_second_submission_fails 3 two_companies 1
           _ eq_refl Hfails).
Defined.

(** ** Final projection *)

Lemma elem_of_sorted (l : list string) (name : string) : name ∈ sorted l <-> name ∈ l.
Proof. unfold sorted. by rewrite merge_sort_Permutation. Qed.

Lemma strongly_sorted_strict (l : list string) :
  StronglySorted String.le l -> NoDup l -> ascending l.
Proof.
  unfold ascending. induction 1 as [|name l Hsorted IH Hall]; intros Hnodup.
  - constructor.
  - apply NoDup_cons in Hnodup as [Hfresh Hnodup]. constructor; [by apply IH|].
    rewrite Forall_forall in Hall |- *. intros other Hin. split; [by apply Hall|].
    intros Hback. apply Hfresh.
    assert (name = other) as -> by (apply (anti_symm String.le); auto).
    done.
Qed.

Lemma sorted_ascending (l : list string) : NoDup l -> ascending (sorted l).
Proof.
  intros Hnodup. apply strongly_sorted_strict.
  - apply (StronglySorted_merge_sort String.le).
  - unfold sorted. by rewrite merge_sort_Permutation.
Qed.

Lemma getitem_columns_inv (df : DataFrame) (key : list string) (selected : DataFrame) :
  getitem_columns df key = inr selected ->
  columns selected = key /\ length (rows selected) = length (rows df).
Proof.
  unfold getitem_columns.
  destruct (filter (fun label => label ∉ columns df) key); [|discriminate].
  intros [= <-]. simpl. by rewrite length_fmap.
Qed.

Section Projection.
Variable repr : value -> string.
Variable net : network.

Lemma for_final_length df row_ids entries index todo final_data out :
  for_final df row_ids entries index todo final_data = inr out ->
  length out = length final_data + length todo.
Proof.
  revert index final_data. induction todo as [|row rest IH]; intros index final_data Hrun.
  - injection Hrun as <-. simpl. lia.
  - cbn [for_final] in Hrun. apply bind_inr in Hrun as (row_data & _ & Hrun).
    apply IH in Hrun. rewrite length_app in Hrun. simpl in *. lia.
Qed.

(** C5. Whenever the run writes its table, the columns of the table are the
    original columns in their order, then [row_id], then the observed field
    names that are neither an original column nor [row_id], in ascending
    order of [str] and without repetition. *)
Theorem final_column_order (rounds_in_budget : nat) (df table : DataFrame) :
  process_csv repr net rounds_in_budget df = inr table ->
  exists (row_ids : list string) (st : locals) (api_cols : list string),
    for_submit repr net df 0 (rows df) [] = inr row_ids
    /\ while_loading net rounds_in_budget (submitted row_ids) = inr st
    /\ columns table = columns df ++ ["row_id"] ++ api_cols
    /\ ascending api_cols
    /\ (forall name : string,
          name ∈ api_cols <->
          (name ∈ all_columns st) /\ (name ∉ columns df) /\ name <> "row_id").
Proof.
  unfold process_csv. intros Hrun.
  apply bind_inr in Hrun as (row_ids & Hsubmit & Hrun).
  apply bind_inr in Hrun as (st & Hloop & Hfinal).
  unfold final_table in Hfinal. apply bind_inr in Hfinal as (final_data & _ & Hselect).
  apply getitem_columns_inv in Hselect as [Hcolumns _].
  exists row_ids, st. eexists. split; [exact Hsubmit|]. split; [exact Hloop|].
  split; [exact Hcolumns|]. split.
  - apply sorted_ascending, NoDup_elements.
  - intros name.
    rewrite elem_of_sorted, elem_of_elements, !elem_of_difference, elem_of_list_to_set,
      elem_of_singleton.
    tauto.
Qed.

(** The table of a run that writes one has a row for every input record. *)
Lemma saved_table_row_count (rounds_in_budget : nat) (df table : DataFrame) :
  process_csv repr net rounds_in_budget df = inr table ->
  length (rows table) = length (rows df).
Proof.
  unfold process_csv. intros Hrun.
  apply bind_inr in Hrun as (row_ids & _ & Hrun).
  apply bind_inr in Hrun as (st & _ & Hfinal).
  unfold final_table in Hfinal. apply bind_inr in Hfinal as (final_data & Hdata & Hselect).
  apply getitem_columns_inv in Hselect as [_ ->]. simpl.
  by rewrite (for_final_length _ _ _ _ _ _ _ Hdata).
Qed.

(** A record whose job is not among the stored results is projected to its
    original fields alone. *)
Lemma final_row_without_job (df : DataFrame) (row_ids : list string) (st : locals)
    (index : nat) (row : gmap string value) (row_id : string) :
  row_ids !! index = Some row_id ->
  job_fields st row_id = None ->
  final_row df row_ids (results st) index row = inr (to_dict df row)
  /\ dom (to_dict df row) = list_to_set (columns df).
Proof.
  intros Hid Hnone. unfold final_row. rewrite Hid. unfold job_fields in Hnone.
  destruct (List.find _ (results st)); [discriminate|]. split; [reflexivity|].
  unfold to_dict. rewrite dom_list_to_map_L. f_equal.
  induction (columns df) as [|label labels IH]; [done|].
  rewrite !fmap_cons. simpl. by f_equal.
Qed.

End Projection.

Lemma final_column_order_witness :
  exists table : DataFrame,
    process_csv repr_plain net_all_resolved 3 two_companies = inr table
    /\ columns table = ["company_name"; "website"; "row_id"; "founded"; "industry"]
    /\ exists api_cols : list string,
         columns table = columns two_companies ++ ["row_id"] ++ api_cols
         /\ ascending api_cols.
Proof.
  eexists. split; [vm_compute; reflexivity|]. split; [reflexivity|].
  edestruct (final_column_order repr_plain net_all_resolved 3 two_companies)
    as (row_ids & st & api_cols & _ & _ & Hcolumns & Hsorted & _);
    [vm_compute; reflexivity|].
  exists api_cols. split; [exact Hcolumns | exact Hsorted].
Defined.

(** A record whose job is among the stored results is projected to its
    original fields, overwritten by the fields stored for the job, and then
    [row_id], which overwrites a field of that name. *)
Lemma final_row_with_job (df : DataFrame) (row_ids : list string) (st : locals)
    (index : nat) (row : gmap string value) (row_id : string)
    (values : gmap string value) :
  row_ids !! index = Some row_id ->
  job_fields st row_id = Some values ->
  exists row_data : gmap string value,
    final_row df row_ids (results st) index row = inr row_data
    /\ row_data !! "row_id" = Some (VStr row_id)
    /\ (forall key v, key <> "row_id" -> values !! key = Some v -> row_data !! key = Some v)
    /\ (forall key, key <> "row_id" -> values !! key = None ->
           row_data !! key = to_dict df row !! key).
Proof.
  intros Hid Hfields. unfold final_row. rewrite Hid. unfold job_fields in Hfields.
  destruct (List.find _ (results st)) as [entry|] eqn:Hfind; [|discriminate].
  injection Hfields as <-. apply find_some in Hfind as [_ Hmatch].
  apply bool_decide_eq_true in Hmatch as ->.
  eexists. split; [reflexivity|]. split; [by rewrite lookup_insert_eq|]. split.
  - intros key v Hkey Hv. rewrite lookup_insert_ne by done.
    by rewrite (lookup_union_Some_l _ _ _ _ Hv).
  - intros key Hkey Hv. rewrite lookup_insert_ne by done.
    by rewrite lookup_union_r.
Qed.

Lemma final_row_with_job_witness :
  ["row-0"; "row-1"] !! 1 = Some "row-1"
  /\ job_fields uneven_round_2 "row-1" = Some {[ "industry" := VStr "Retail" ]}
  /\ exists row_data : gmap string value,
       final_row two_companies ["row-0"; "row-1"] (results uneven_round_2) 1
         (company_row "Globex" "globex.example") = inr row_data
       /\ row_data !! "row_id" = Some (VStr "row-1").
Proof.
  split; [reflexivity|]. split; [reflexivity|].
  destruct (final_row_with_job two_companies ["row-0"; "row-1"] uneven_round_2 1
              (company_row "Globex" "globex.example") "row-1" _ eq_refl eq_refl)
    as (row_data & Hrow & Hid & _).
  exists row_data. split; [exact Hrow | exact Hid].
Defined.

(** The loop performs at most as many rounds as the clock lets through, and
    it ends either with an empty loading set or with the budget used up. *)
Lemma while_loading_bounded (net : network) (budget : nat) (st st' : locals) :
  while_loading net budget st = inr st' ->
  iteration st' <= iteration st + budget
  /\ (loading_rows st' = [] \/ iteration st' = iteration st + budget).
Proof.
  revert st. induction budget as [|budget IH]; intros st Hloop; simpl in Hloop.
  - injection Hloop as <-. split; [lia | right; lia].
  - destruct (loading_rows st) as [|row_id rest] eqn:Hrows.
    + injection Hloop as <-. split; [lia | by left].
    + apply bind_inr in Hloop as (st1 & Hround & Hloop).
      assert (Hstep : round_step net st st1) by (split; [by rewrite Hrows | done]).
      apply round_step_inv in Hstep as (obs & _ & Hst1).
      apply IH in Hloop as [Hle Hend]. rewrite Hst1 in Hle, Hend. simpl in Hle, Hend.
      split; [lia|]. destruct Hend as [Hend|Hend]; [by left | right; lia].
Qed.

Lemma while_loading_bounded_witness :
  exists st' : locals,
    while_loading net_never_resolves 2 (submitted ["row-0"]) = inr st'
    /\ iteration st' = 2
    /\ loading_rows st' = ["row-0"]
    /\ iteration st' <= iteration (submitted ["row-0"]) + 2.
Proof.
  eexists. split; [vm_compute; reflexivity|]. split; [reflexivity|].
  split; [reflexivity|].
  apply (while_loading_bounded net_never_resolves 2 (submitted ["row-0"])).
  vm_compute. reflexivity.
Defined.

(** ** Runs that write no table *)

(** C3.  On the empty record set the run does not produce a table with zero
    rows: the frame built from no rows has no column, the selection of the
    final columns raises [KeyError], and nothing is written.  This holds
    whatever the network answers and whatever the time budget. *)
Theorem empty_record_set_raises (repr : value -> string) (net : network)
    (rounds_in_budget : nat) :
  process_csv repr net rounds_in_budget no_companies
    = inl (KeyError ["company_name"; "website"; "row_id"])
  /\ output_file (process_csv repr net rounds_in_budget no_companies) = None.
Proof.
  assert (Hrun : process_csv repr net rounds_in_budget no_companies
                 = inl (KeyError ["company_name"; "website"; "row_id"])).
  { unfold process_csv. cbn [no_companies rows for_submit bind ret].
    assert (while_loading net rounds_in_budget (submitted []) = inr (submitted [])) as ->
      by (by destruct rounds_in_budget).
    vm_compute. reflexivity. }
  rewrite Hrun. split; reflexivity.
Qed.

(** C2.  A record whose job is not among the stored results is projected to
    its original fields, but the run does not always write the table then.
    In the run of [net_uneven_columns] the loop ends with the results of
    round 2 only; the job [row-0], resolved in round 1, is not found; its row
    holds the original fields alone; no row holds the field [founded] seen
    in round 1, the selection of the final columns raises [KeyError], and
    nothing is written. *)
Theorem unfound_job_run_raises :
  while_loading net_uneven_columns 5 (submitted ["row-0"; "row-1"]) = inr uneven_round_2
  /\ job_fields uneven_round_2 "row-0" = None
  /\ final_row two_companies ["row-0"; "row-1"] (results uneven_round_2) 0
       (company_row "Acme" "acme.example")
     = inr (company_row "Acme" "acme.example")
  /\ process_csv repr_plain net_uneven_columns 5 two_companies = inl (KeyError ["founded"])
  /\ output_file (process_csv repr_plain net_uneven_columns 5 two_companies) = None.
Proof.
  split; [vm_compute; reflexivity|]. split; [reflexivity|].
  split; [vm_compute; reflexivity|].
  split; vm_compute; reflexivity.
Qed.

Lemma saved_table_row_count_witness :
  exists table : DataFrame,
    process_csv repr_plain net_all_resolved 3 two_companies = inr table
    /\ length (rows table) = length (rows two_companies).
Proof.
  eexists. split; [vm_compute; reflexivity|].
  apply (saved_table_row_count repr_plain net_all_resolved 3 two_companies).
  vm_compute. reflexivity.
Defined.

Lemma final_row_without_job_witness :
  ["row-0"; "row-1"] !! 0 = Some "row-0"
  /\ job_fields uneven_round_2 "row-0" = None
  /\ final_row two_companies ["row-0"; "row-1"] (results uneven_round_2) 0
       (company_row "Acme" "acme.example")
     = inr (to_dict two_companies (company_row "Acme" "acme.example")).
Proof.
  split; [reflexivity|]. split; [reflexivity|].
  exact (proj1 (final_row_without_job two_companies ["row-0"; "row-1"] uneven_round_2 0
                  (company_row "Acme" "acme.example") "row-0" eq_refl eq_refl)).
Defined.

(** ** Trimming *)

Lemma append_cons (c : ascii) (s t : string) : String c s +:+ t = String c (s +:+ t).
Proof. reflexivity. Qed.

Lemma append_empty_r (s : string) : s +:+ "" = s.
Proof. induction s as [|c s IH]; [done|]. by rewrite append_cons, IH. Qed.

Lemma append_assoc (s t u : string) : (s +:+ t) +:+ u = s +:+ (t +:+ u).
Proof. induction s as [|c s IH]; [done|]. by rewrite !append_cons, IH. Qed.

Lemma rev_app_append (s t : string) : String.rev_app s t = String.rev s +:+ t.
Proof.
  unfold String.rev. revert t. induction s as [|c s IH]; intros t; [done|].
  cbn [String.rev_app]. rewrite (IH (String c t)), (IH (String c "")).
  by rewrite append_assoc.
Qed.

Lemma rev_cons (c : ascii) (s : string) : String.rev (String c s) = String.rev s +:+ String c "".
Proof. unfold String.rev at 1. cbn [String.rev_app]. apply rev_app_append. Qed.

Lemma rev_append (s t : string) : String.rev (s +:+ t) = String.rev t +:+ String.rev s.
Proof.
  induction s as [|c s IH].
  - change ("" +:+ t) with t. by rewrite append_empty_r.
  - by rewrite append_cons, !rev_cons, IH, append_assoc.
Qed.

Lemma rev_involutive (s : string) : String.rev (String.rev s) = s.
Proof.
  induction s as [|c s IH]; [done|].
  rewrite rev_cons, rev_append, IH. reflexivity.
Qed.

Lemma lstrip_idempotent (s : string) : lstrip (lstrip s) = lstrip s.
Proof.
  induction s as [|c s IH]; [done|]. cbn [lstrip].
  destruct (isspace c) eqn:Hc; [exact IH|]. cbn [lstrip]. by rewrite Hc.
Qed.

(** Left trimming leaves a last character that is not white space in place. *)
Lemma lstrip_snoc (s : string) (c : ascii) :
  isspace c = false -> exists t, lstrip (s +:+ String c "") = t +:+ String c "".
Proof.
  intros Hc. induction s as [|a s [t IH]].
  - exists "". change ("" +:+ String c "") with (String c ""). cbn [lstrip]. by rewrite Hc.
  - rewrite append_cons. cbn [lstrip]. destruct (isspace a).
    + by exists t.
    + by exists (String a s).
Qed.

(** [strip] returns a string that [strip] leaves alone. *)
Lemma strip_idempotent (s : string) : strip (strip s) = strip s.
Proof.
  unfold strip, rstrip.
  assert (Hleft : lstrip (String.rev (lstrip (String.rev (lstrip s))))
                  = String.rev (lstrip (String.rev (lstrip s)))).
  { destruct (lstrip s) as [|c t] eqn:Ht; [done|].
    assert (Hc : isspace c = false).
    { destruct (isspace c) eqn:Hc; [|done].
      pose proof (lstrip_idempotent s) as Hidem. rewrite Ht in Hidem.
      cbn [lstrip] in Hidem. rewrite Hc in Hidem.
      assert (Hlen : String.length (lstrip t) <= String.length t).
      { clear. induction t as [|a t IH]; [done|]. cbn [lstrip].
        destruct (isspace a); simpl in *; lia. }
      rewrite Hidem in Hlen. simpl in Hlen. lia. }
    rewrite rev_cons. destruct (lstrip_snoc (String.rev t) c Hc) as [u ->].
    rewrite rev_append. change (String.rev (String c "")) with (String c "").
    rewrite append_cons. change ("" +:+ String.rev u) with (String.rev u).
    cbn [lstrip]. by rewrite Hc. }
  by rewrite Hleft, rev_involutive, lstrip_idempotent.
Qed.

(** ** More on the result extractor *)

Lemma for_column_error columns values is_still_loading e :
  for_column columns values is_still_loading = inl e ->
  exists attribute, e = AttributeError attribute.
Proof.
  revert values is_still_loading.
  induction columns as [|column rest IH]; intros values flag Hrun; [discriminate|].
  cbn [for_column] in Hrun.
  destruct column as [| | | | |l|d]; try (injection Hrun as <-; by eexists).
  cbn [py_get bind ret] in Hrun.
  destruct (dict_get d "column_name" (VStr "")); try (injection Hrun as <-; by eexists).
  cbn [py_strip bind ret] in Hrun. destruct (String.eqb (strip s) ""); eauto.
Qed.

(** The extractor raises exactly on a list that holds an element that is not
    a field descriptor, and what it raises then is an [AttributeError]. *)
Lemma extractor_raises_exactly (result : value) :
  (raises (extract_column_values result) <->
   exists columns, result = VList columns
                   /\ Exists (fun column => ~ is_descriptor column) columns)
  /\ (forall e, extract_column_values result = inl e ->
        exists attribute, e = AttributeError attribute).
Proof.
  split; [split|].
  - intros [e He].
    destruct result as [| | | | |columns|d]; try discriminate He.
    exists columns. split; [reflexivity|].
    destruct (decide (Forall is_descriptor columns)) as [Hall|Hbad].
    + unfold extract_column_values in He.
      rewrite for_column_descriptors in He by done. discriminate.
    + apply not_Forall_Exists in Hbad; [exact Hbad | apply _].
  - intros (columns & -> & Hbad). by apply for_column_bad_element.
  - intros e He. unfold extract_column_values in He. by eapply for_column_error.
Qed.

(** Starting the loop from other values of its locals only adds to them. *)
Lemma for_column_frame columns values is_still_loading :
  for_column columns values is_still_loading =
    (r <- for_column columns ∅ false ;; ret (r.1 ∪ values, r.2 || is_still_loading)).
Proof.
  revert values is_still_loading.
  induction columns as [|column rest IH]; intros values flag.
  - cbn. by rewrite (left_id_L ∅ (∪)).
  - cbn [for_column].
    destruct (py_get column "column_name" (VStr "")) as [e|name]; [done|]. cbn [bind].
    destruct (py_strip name) as [e|column_name]; [done|]. cbn [bind].
    destruct (String.eqb column_name ""); [apply IH|].
    destruct (py_get column "value" (VStr "")) as [e|v]; [done|]. cbn [bind].
    destruct (py_get column "is_loading" (VBool false)) as [e|pending]; [done|]. cbn [bind].
    rewrite (IH (<[column_name:=v]> values)), (IH (<[column_name:=v]> ∅)).
    destruct (for_column rest ∅ false) as [e|[values' flag']]; [done|]. cbn.
    do 2 f_equal.
    + by rewrite insert_empty, <- (assoc_L (∪)), <- insert_union_singleton_l.
    + by destruct (truthy pending), flag', flag.
Qed.

Lemma for_column_app columns1 columns2 values is_still_loading :
  for_column (columns1 ++ columns2) values is_still_loading =
    (r <- for_column columns1 values is_still_loading ;; for_column columns2 r.1 r.2).
Proof.
  revert values is_still_loading.
  induction columns1 as [|column rest IH]; intros values flag; [done|].
  rewrite <- app_comm_cons. cbn [for_column].
  destruct (py_get column "column_name" (VStr "")) as [e|name]; [done|]. cbn [bind].
  destruct (py_strip name) as [e|column_name]; [done|]. cbn [bind].
  destruct (String.eqb column_name ""); [apply IH|].
  destruct (py_get column "value" (VStr "")) as [e|v]; [done|]. cbn [bind].
  destruct (py_get column "is_loading" (VBool false)) as [e|pending]; [done|]. cbn [bind].
  apply IH.
Qed.

(** A payload made of two lists of columns is extracted as the two lists
    are, one after the other: the first failure is the failure of the whole;
    otherwise the fields of the second list overwrite those of the first and
    the job is loading when either part is. *)
Lemma extract_column_values_app (columns1 columns2 : list value) :
  extract_column_values (VList (columns1 ++ columns2)) =
    (first <- extract_column_values (VList columns1) ;;
     second <- extract_column_values (VList columns2) ;;
     ret (second.1 ∪ first.1, first.2 || second.2)).
Proof.
  unfold extract_column_values. rewrite for_column_app.
  destruct (for_column columns1 ∅ false) as [e|[values1 flag1]]; [done|]. cbn [bind fst snd].
  rewrite for_column_frame.
  destruct (for_column columns2 ∅ false) as [e|[values2 flag2]]; [done|]. cbn.
  by rewrite (orb_comm flag2).
Qed.

Lemma for_column_keys columns values is_still_loading values' flag' :
  for_column columns values is_still_loading = inr (values', flag') ->
  (forall key, key ∈ dom values -> key <> "" /\ strip key = key) ->
  (is_still_loading = true -> values <> ∅) ->
  (forall key, key ∈ dom values' -> key <> "" /\ strip key = key)
  /\ (flag' = true -> values' <> ∅).
Proof.
  revert values is_still_loading.
  induction columns as [|column rest IH]; intros values flag Hrun Hkeys Hflag.
  - injection Hrun as <- <-. done.
  - cbn [for_column] in Hrun.
    apply bind_inr in Hrun as (name & _ & Hrun).
    apply bind_inr in Hrun as (column_name & Hname & Hrun).
    destruct (String.eqb column_name "") eqn:Hempty; [by eapply IH|].
    apply bind_inr in Hrun as (v & _ & Hrun).
    apply bind_inr in Hrun as (pending & _ & Hrun).
    apply (IH _ _ Hrun).
    + intros key. rewrite dom_insert_L, elem_of_union, elem_of_singleton.
      intros [->|Hin]; [|by apply Hkeys].
      destruct name; try discriminate Hname. injection Hname as <-.
      split; [|apply strip_idempotent].
      intros Heq. rewrite Heq in Hempty. discriminate.
    + intros _. apply insert_non_empty.
Qed.

(** Every name in the extracted mapping is not empty and carries no white
    space at either end; and a job is reported loading only with at least one
    field in its mapping. *)
Lemma extracted_names_are_trimmed (result : value) (values : gmap string value)
    (is_loading : bool) :
  extract_column_values result = inr (values, is_loading) ->
  (forall key, key ∈ dom values -> key <> "" /\ strip key = key)
  /\ (is_loading = true -> values <> ∅).
Proof.
  unfold extract_column_values. intros Hrun.
  apply (for_column_keys _ _ _ _ _ Hrun); [|discriminate].
  intros key. rewrite dom_empty_L. by intros ?%not_elem_of_empty.
Qed.

Lemma extracted_names_are_trimmed_witness :
  extract_column_values (VList [column " industry " "Software" true])
    = inr ({[ "industry" := VStr "Software" ]}, true)
  /\ (forall key, key ∈ dom ({[ "industry" := VStr "Software" ]} : gmap string value) ->
        key <> "" /\ strip key = key).
Proof.
  assert (Hrun : extract_column_values (VList [column " industry " "Software" true])
                 = inr ({[ "industry" := VStr "Software" ]}, true)).
  { vm_compute. reflexivity. }
  split; [exact Hrun|].
  exact (proj1 (extracted_names_are_trimmed _ _ _ Hrun)).
Defined.

(** ** More on submission *)

Section SubmissionOrder.
Variable repr : value -> string.
Variable net : network.

(** A submission succeeds exactly when the body is a mapping without a
    truthy [error_detail] and with a truthy [row_id]; the identifier is then
    [str] of that [row_id].  An error detail wins over an identifier, and an
    identifier such as [0] or the empty string counts as missing. *)
Lemma submit_company_succeeds_exactly (index : nat) (company_data : company)
    (row_id : string) :
  submit_company repr net index company_data = inr row_id <->
  exists d : list (string * value),
    requests_post net index (company_name company_data) (website company_data)
      = inr (VDict d)
    /\ truthy (dict_get d "error_detail" VNone) = false
    /\ truthy (dict_get d "row_id" VNone) = true
    /\ row_id = py_str repr (dict_get d "row_id" VNone).
Proof.
  unfold submit_company, http. split.
  - destruct (requests_post net index _ _) as [detail|body]; [discriminate|].
    destruct body as [| | | | |l|d]; try discriminate. cbn.
    destruct (truthy (dict_get d "error_detail" VNone)) eqn:Herror; [discriminate|].
    destruct (truthy (dict_get d "row_id" VNone)) eqn:Hid; [|discriminate].
    cbn. intros [= <-]. by exists d.
  - intros (d & -> & Herror & Hid & ->). cbn. by rewrite Herror, Hid.
Qed.

Lemma for_submit_inv df index todo row_ids out :
  for_submit repr net df index todo row_ids = inr out ->
  exists new : list string,
    out = row_ids ++ new
    /\ length new = length todo
    /\ (forall i row, todo !! i = Some row ->
          exists row_id,
            new !! i = Some row_id
            /\ submit_company repr net (index + i)
                 {| company_name := cell row "company_name";
                    website := cell row "website" |} = inr row_id).
Proof.
  revert index row_ids. induction todo as [|first rest IH]; intros index row_ids Hrun.
  - injection Hrun as <-. exists []. by rewrite app_nil_r.
  - cbn [for_submit] in Hrun.
    apply bind_inr in Hrun as (name & Hname & Hrun).
    apply bind_inr in Hrun as (url & Hurl & Hrun).
    apply bind_inr in Hrun as (row_id & Hsubmit & Hrun).
    unfold series_item in Hname, Hurl. repeat case_decide; try discriminate.
    injection Hname as <-. injection Hurl as <-.
    apply IH in Hrun as (new & -> & Hlen & Hnew).
    exists (row_id :: new). split; [by rewrite <- app_assoc|]. split; [simpl; lia|].
    intros [|i] row Hi; simpl in Hi.
    + injection Hi as <-. exists row_id. by rewrite Nat.add_0_r.
    + destruct (Hnew i row Hi) as (id & Hid & Hsub). exists id. split; [done|].
      by rewrite Nat.add_succ_r.
Qed.

(** The identifiers are paired with the records by position: when all
    submissions succeed there is one identifier per record, and the one at
    position [i] is the identifier returned for the record at position [i]. *)
Lemma submissions_paired_by_position (df : DataFrame) (row_ids : list string) :
  for_submit repr net df 0 (rows df) [] = inr row_ids ->
  length row_ids = length (rows df)
  /\ (forall i row, rows df !! i = Some row ->
        exists row_id,
          row_ids !! i = Some row_id
          /\ submit_company repr net i
               {| company_name := cell row "company_name";
                  website := cell row "website" |} = inr row_id).
Proof.
  intros (new & -> & Hlen & Hnew)%for_submit_inv. split; [done|].
  intros i row Hi. destruct (Hnew i row Hi) as (row_id & Hid & Hsub). by exists row_id.
Qed.

(** With at least one record, a frame that lacks a required column makes
    the run raise [KeyError] for that column ([company_name] first) and write
    nothing, whatever the service would answer. *)
Lemma missing_required_column_aborts (rounds_in_budget : nat) (df : DataFrame) :
  rows df <> [] ->
  ~ ("company_name" ∈ columns df /\ "website" ∈ columns df) ->
  process_csv repr net rounds_in_budget df
    = inl (KeyError [if decide ("company_name" ∈ columns df)
                     then "website" else "company_name"])
  /\ output_file (process_csv repr net rounds_in_budget df) = None.
Proof.
  intros Hrows Hmissing.
  assert (Hrun : process_csv repr net rounds_in_budget df
                 = inl (KeyError [if decide ("company_name" ∈ columns df)
                                  then "website" else "company_name"])).
  { unfold process_csv. destruct (rows df) as [|row rest]; [done|].
    cbn [for_submit]. unfold series_item.
    destruct (decide ("company_name" ∈ columns df)) as [Hname|Hname]; [|done].
    cbn [bind ret]. destruct (decide ("website" ∈ columns df)); [|done].
    by destruct Hmissing. }
  by rewrite Hrun.
Qed.

End SubmissionOrder.

Lemma submissions_paired_by_position_witness :
  for_submit repr_plain net_all_resolved two_companies 0 (rows two_companies) []
    = inr ["row-0"; "row-1"]
  /\ length ["row-0"; "row-1"] = length (rows two_companies).
Proof.
  assert (Hrun : for_submit repr_plain net_all_resolved two_companies 0
                   (rows two_companies) [] = inr ["row-0"; "row-1"]).
  { vm_compute. reflexivity. }
  split; [exact Hrun|].
  exact (proj1 (submissions_paired_by_position repr_plain net_all_resolved _ _ Hrun)).
Defined.

Lemma missing_required_column_aborts_witness :
  rows {| columns := ["company_name"]; rows := [company_row "Acme" "acme.example"] |} <> []
  /\ process_csv repr_plain net_all_resolved 3
       {| columns := ["company_name"]; rows := [company_row "Acme" "acme.example"] |}
     = inl (KeyError ["website"]).
Proof.
  assert (Hrows : rows {| columns := ["company_name"];
                          rows := [company_row "Acme" "acme.example"] |} <> [])
    by discriminate.
  split; [exact Hrows|].
  refine (proj1 (missing_required_column_aborts repr_plain net_all_resolved 3 _ Hrows _)).
  intros [_ Hin]. apply list_elem_of_singleton in Hin. discriminate.
Defined.

(** ** More on the polling loop *)

Section PollingMore.
Variable net : network.

Lemma obs_loading_sublist (obs : list observation) :
  obs_loading obs `sublist_of` obs_row_id <$> obs.
Proof.
  unfold obs_loading. induction obs as [|o obs IH]; [constructor|].
  rewrite fmap_cons. cbn [List.filter].
  destruct (obs_is_loading o); [rewrite fmap_cons|]; by constructor.
Qed.

(** The loading list only loses jobs, and keeps the others in their order:
    after any number of rounds it is a sublist of what it was, so it never
    grows and distinct identifiers stay distinct.  The results of a round
    hold one entry per job polled in that round, in polling order. *)
Lemma loading_rows_shrink (st st' : locals) :
  rtc (round_step net) st st' ->
  loading_rows st' `sublist_of` loading_rows st
  /\ length (loading_rows st') <= length (loading_rows st)
  /\ (NoDup (loading_rows st) -> NoDup (loading_rows st'))
  /\ (forall st'', round_step net st' st'' ->
        entry_row_id <$> results st'' = loading_rows st').
Proof.
  intros Hrounds.
  assert (Hsub : loading_rows st' `sublist_of` loading_rows st).
  { induction Hrounds as [|st st1 st' Hstep _ IH]; [done|].
    etrans; [exact IH|].
    apply round_step_inv in Hstep as (obs & Hobs & ->). simpl.
    rewrite <- (observe_row_ids _ _ _ _ _ Hobs). apply obs_loading_sublist. }
  split; [exact Hsub|]. split; [by apply sublist_length|].
  split; [intros Hnodup; by eapply sublist_NoDup|].
  intros st'' (obs & Hobs & ->)%round_step_inv. simpl.
  by rewrite obs_entry_row_ids, (observe_row_ids _ _ _ _ _ Hobs).
Qed.

Lemma elem_of_obs_keys (obs : list observation) (key : string) :
  key ∈ obs_keys obs <-> exists o, o ∈ obs /\ key ∈ dom (obs_values o).
Proof.
  unfold obs_keys. rewrite elem_of_union_list. split.
  - intros (X & (o & -> & Hin)%list_elem_of_fmap & Hkey). eauto.
  - intros (o & Hin & Hkey). exists (dom (obs_values o)). split; [|done].
    apply list_elem_of_fmap. eauto.
Qed.


(** Whatever is stored in [results] was recorded in [all_columns], and was
    stored for one of the submitted jobs. *)
Lemma results_within_all_columns (row_ids : list string) (st : locals) :
  rtc (round_step net) (submitted row_ids) st ->
  forall entry, entry ∈ results st ->
    dom (entry_values entry) ⊆ all_columns st /\ entry_row_id entry ∈ row_ids.
Proof.
  revert st. apply (rtc_ind_r (fun st => forall entry, entry ∈ results st ->
    dom (entry_values entry) ⊆ all_columns st /\ entry_row_id entry ∈ row_ids)).
  - intros entry Hin. simpl in Hin. by apply not_elem_of_nil in Hin.
  - intros st st' Hrounds Hstep IH entry Hin.
    pose proof (rounds_loading _ _ _ Hrounds) as Hsub. simpl in Hsub.
    apply round_step_inv in Hstep as (obs & Hobs & ->). simpl in *.
    apply list_elem_of_fmap in Hin as (o & -> & Hin). split.
    + intros key Hkey. apply elem_of_union. right. apply elem_of_obs_keys. eauto.
    + apply Hsub. rewrite <- (observe_row_ids _ _ _ _ _ Hobs).
      apply list_elem_of_fmap. eauto.
Qed.



Lemma observe_raises iteration position todo i row_id :
  todo !! i = Some row_id ->
  raises (poll net iteration (position + i) row_id) ->
  raises (observe net iteration position todo).
Proof.
  revert position i. induction todo as [|first rest IH]; intros position i Hi Hpoll.
  - by rewrite lookup_nil in Hi.
  - cbn [observe]. destruct i as [|i]; simpl in Hi.
    + injection Hi as ->. rewrite Nat.add_0_r in Hpoll. by apply bind_raises.
    + apply bind_raises_k. intros extracted _. apply bind_raises.
      apply (IH (S position) i Hi). by rewrite Nat.add_succ_l, <- Nat.add_succ_r.
Qed.

Lemma poll_round_raises st position row_id :
  loading_rows st !! position = Some row_id ->
  raises (poll net (S (iteration st)) position row_id) ->
  raises (poll_round net st).
Proof.
  intros Hpos Hpoll. unfold poll_round. apply bind_raises.
  rewrite for_row_id_observe. apply bind_raises. cbn [iteration loading_rows].
  by apply (observe_raises _ 0 _ position row_id).
Qed.

Lemma while_loading_nsteps (k budget : nat) (st st' : locals) :
  nsteps (round_step net) k st st' ->
  while_loading net (k + budget) st = while_loading net budget st'.
Proof.
  induction 1 as [|k st st1 st' [Hrows Hround] _ IH]; [done|].
  cbn [Nat.add while_loading]. destruct (loading_rows st); [done|].
  rewrite Hround. cbn [bind]. apply IH.
Qed.

End PollingMore.

Section PollFailure.
Variable repr : value -> string.
Variable net : network.

(** There is no isolation of a failing poll: if, in a round that the time
    budget still allows, the poll of one job raises (the transport fails, or
    the payload is a list with a malformed element), the run raises and
    writes nothing, whatever was fetched before. *)
Lemma poll_failure_aborts (rounds_in_budget k : nat) (df : DataFrame)
    (row_ids : list string) (st : locals) (position : nat) (row_id : string) :
  for_submit repr net df 0 (rows df) [] = inr row_ids ->
  nsteps (round_step net) k (submitted row_ids) st ->
  k < rounds_in_budget ->
  loading_rows st !! position = Some row_id ->
  raises (poll net (S (iteration st)) position row_id) ->
  raises (process_csv repr net rounds_in_budget df)
  /\ output_file (process_csv repr net rounds_in_budget df) = None.
Proof.
  intros Hsubmit Hrounds Hbudget Hpos Hpoll.
  assert (Hraises : raises (process_csv repr net rounds_in_budget df)).
  { unfold process_csv. rewrite Hsubmit. cbn [bind]. apply bind_raises.
    replace rounds_in_budget with (k + S (rounds_in_budget - S k)) by lia.
    rewrite (while_loading_nsteps _ _ _ _ _ Hrounds). cbn [while_loading].
    destruct (loading_rows st) eqn:Hrows; [by rewrite lookup_nil in Hpos|].
    apply bind_raises. apply (poll_round_raises net st position row_id); [|done].
    by rewrite Hrows. }
  split; [exact Hraises|]. by destruct Hraises as [e ->].
Qed.

End PollFailure.

Lemma loading_rows_shrink_witness :
  rtc (round_step net_uneven_columns) (submitted ["row-0"; "row-1"]) uneven_round_1
  /\ loading_rows uneven_round_1 `sublist_of` loading_rows (submitted ["row-0"; "row-1"])
  /\ entry_row_id <$> results uneven_round_2 = loading_rows uneven_round_1.
Proof.
  assert (Hround1 : round_step net_uneven_columns (submitted ["row-0"; "row-1"])
                      uneven_round_1).
  { split; [discriminate | vm_compute; reflexivity]. }
  assert (Hround2 : round_step net_uneven_columns uneven_round_1 uneven_round_2).
  { split; [discriminate | vm_compute; reflexivity]. }
  destruct (loading_rows_shrink net_uneven_columns _ _ (rtc_once _ _ Hround1))
    as (Hsub & _ & _ & Hids).
  split; [by apply rtc_once|]. split; [exact Hsub | exact (Hids _ Hround2)].
Defined.

Lemma results_within_all_columns_witness :
  rtc (round_step net_uneven_columns) (submitted ["row-0"; "row-1"]) uneven_round_1
  /\ forall entry, entry ∈ results uneven_round_1 ->
       dom (entry_values entry) ⊆ all_columns uneven_round_1
       /\ entry_row_id entry ∈ ["row-0"; "row-1"].
Proof.
  assert (Hrounds : rtc (round_step net_uneven_columns) (submitted ["row-0"; "row-1"])
                      uneven_round_1).
  { apply rtc_once. split; [discriminate | vm_compute; reflexivity]. }
  split; [exact Hrounds|].
  exact (results_within_all_columns net_uneven_columns _ _ Hrounds).
Defined.

Lemma poll_failure_aborts_witness :
  for_submit repr_plain net_second_poll_fails one_company 0 (rows one_company) []
    = inr ["row-0"]
  /\ nsteps (round_step net_second_poll_fails) 1 (submitted ["row-0"]) snapshots_round_1
  /\ raises (poll net_second_poll_fails (S (iteration snapshots_round_1)) 0 "row-0")
  /\ raises (process_csv repr_plain net_second_poll_fails 5 one_company).
Proof.
  assert (Hsubmit : for_submit repr_plain net_second_poll_fails one_company 0
                      (rows one_company) [] = inr ["row-0"]).
  { vm_compute. reflexivity. }
  assert (Hrounds : nsteps (round_step net_second_poll_fails) 1 (submitted ["row-0"])
                      snapshots_round_1).
  { apply nsteps_once. split; [discriminate | vm_compute; reflexivity]. }
  assert (Hpoll : raises (poll net_second_poll_fails (S (iteration snapshots_round_1)) 0
                            "row-0")).
  { by eexists. }
  split; [exact Hsubmit|]. split; [exact Hrounds|]. split; [exact Hpoll|].
  refine (proj1 (poll_failure_aborts repr_plain net_second_poll_fails 5 1 one_company
                   ["row-0"] snapshots_round_1 0 "row-0" Hsubmit Hrounds _ eq_refl Hpoll)).
  lia.
Defined.

(** ** More on the final projection *)



Lemma elem_of_DataFrame_columns (records : list (gmap string value)) (label : string) :
  label ∈ columns (DataFrame_of_records records) <->
  exists row_data, row_data ∈ records /\ label ∈ dom row_data.
Proof.
  unfold DataFrame_of_records. cbn [columns].
  rewrite elem_of_elements, elem_of_union_list. split.
  - intros (X & (row_data & -> & Hin)%list_elem_of_fmap & Hlabel). eauto.
  - intros (row_data & Hin & Hlabel). exists (dom row_data). split; [|done].
    apply list_elem_of_fmap. eauto.
Qed.

Lemma getitem_columns_cases (df : DataFrame) (key : list string) :
  (Forall (fun label => label ∈ columns df) key
   /\ getitem_columns df key
      = inr {| columns := key;
               rows := (fun row => filter (fun kv => kv.1 ∈ key) row) <$> rows df |})
  \/ (~ Forall (fun label => label ∈ columns df) key
      /\ exists missing, getitem_columns df key = inl (KeyError missing)
                         /\ missing <> []
                         /\ forall label, label ∈ missing ->
                              label ∈ key /\ label ∉ columns df).
Proof.
  unfold getitem_columns.
  destruct (filter (fun label => label ∉ columns df) key) as [|label missing] eqn:Hfilter.
  - left. split; [|done]. apply Forall_forall. intros label Hin.
    destruct (decide (label ∈ columns df)) as [|Hout]; [done|].
    assert (Hmem : label ∈ filter (fun label => label ∉ columns df) key)
      by (by apply list_elem_of_filter).
    rewrite Hfilter in Hmem. by apply not_elem_of_nil in Hmem.
  - right.
    assert (Hmissing : forall other, other ∈ label :: missing ->
              other ∈ key /\ other ∉ columns df).
    { intros other Hin. rewrite <- Hfilter in Hin.
      apply list_elem_of_filter in Hin. tauto. }
    split.
    + intros Hall. rewrite Forall_forall in Hall.
      destruct (Hmissing label) as [Hin Hout]; [apply list_elem_of_here|].
      by apply Hout, Hall.
    + exists (label :: missing). done.
Qed.






Section ProjectionMore.
Variable repr : value -> string.
Variable net : network.


End ProjectionMore.


(** The final step writes the table exactly when every final column occurs
    in at least one projected row; otherwise it raises [KeyError] with the
    columns that occur in none. *)
Lemma final_table_written_exactly (df : DataFrame) (row_ids : list string) (st : locals)
    (final_data : list (gmap string value)) :
  for_final df row_ids (results st) 0 (rows df) [] = inr final_data ->
  ((exists table, final_table df row_ids st = inr table) <->
   (forall label, label ∈ final_cols df (all_columns st) ->
      exists row_data, row_data ∈ final_data /\ label ∈ dom row_data))
  /\ (forall e, final_table df row_ids st = inl e ->
        exists missing, e = KeyError missing /\ missing <> []
          /\ forall label, label ∈ missing ->
               label ∈ final_cols df (all_columns st)
               /\ forall row_data, row_data ∈ final_data -> label ∉ dom row_data).
Proof.
  intros Hdata. unfold final_table. rewrite Hdata. cbn [bind].
  destruct (getitem_columns_cases (DataFrame_of_records final_data)
              (final_cols df (all_columns st)))
    as [[Hall Hok]|(Hnot & missing & Hko & Hne & Hmissing)].
  - rewrite Hok. split; [|discriminate]. split; [|by eexists].
    intros _ label Hlabel. rewrite Forall_forall in Hall.
    by apply elem_of_DataFrame_columns, Hall.
  - rewrite Hko. split.
    + split; [by intros [table ?]|]. intros Hall. destruct Hnot.
      apply Forall_forall. intros label Hlabel.
      by apply elem_of_DataFrame_columns, Hall.
    + intros e [= <-]. exists missing. split; [done|]. split; [done|].
      intros label Hin. destruct (Hmissing label Hin) as [Hkey Hout].
      split; [done|]. intros row_data Hrow Hdom. apply Hout.
      apply elem_of_DataFrame_columns. eauto.
Qed.

(** ** Runs that end after one round *)

Section SingleRound.
Variable repr : value -> string.
Variable net : network.



End SingleRound.



Lemma final_table_written_exactly_witness :
  for_final two_companies ["row-0"; "row-1"] (results uneven_round_2) 0
    (rows two_companies) [] = inr uneven_final_data
  /\ forall e,
       final_table two_companies ["row-0"; "row-1"] uneven_round_2 = inl e ->
       exists missing, e = KeyError missing /\ missing <> [].
Proof.
  assert (Hdata : for_final two_companies ["row-0"; "row-1"] (results uneven_round_2) 0
                    (rows two_companies) [] = inr uneven_final_data).
  { vm_compute. reflexivity. }
  split; [exact Hdata|]. intros e He.
  destruct (proj2 (final_table_written_exactly two_companies ["row-0"; "row-1"]
                     uneven_round_2 uneven_final_data Hdata) e He)
    as (missing & Hkey & Hne & _).
  exists missing. split; [exact Hkey | exact Hne].
Defined.

(** ** Construction and entry point *)

Lemma required_env_inr (environ : gmap string string) (name text : string) :
  required_env environ name = inr text <-> environ !! name = Some text /\ text <> "".
Proof.
  unfold required_env. destruct (environ !! name) as [found|]; [|split; [done|by intros []]].
  destruct (String.eqb_spec found ""); split.
  - discriminate.
  - intros [[= ->] Hne]. done.
  - intros [= ->]. done.
  - by intros [[= ->] _].
Qed.

(** A processor that has been constructed holds the two credentials of the
    environment, neither of them empty, and sends its key in the
    [kur-api-key] header. *)
Lemma init_holds_credentials (environ : gmap string string) (self : KurationAPIProcessor) :
  init environ = inr self ->
  environ !! "KURATION_API_KEY" = Some (api_key self)
  /\ api_key self <> ""
  /\ environ !! "KURATION_CHAT_ID" = Some (chat_id self)
  /\ chat_id self <> ""
  /\ headers self !! "kur-api-key" = Some (api_key self).
Proof.
  unfold init.
  destruct (required_env environ "KURATION_API_KEY") as [e|key] eqn:Hkey; [discriminate|].
  destruct (required_env environ "KURATION_CHAT_ID") as [e|chat] eqn:Hchat; [discriminate|].
  intros [= <-]. cbn [api_key chat_id headers].
  apply required_env_inr in Hkey as [Hkey Hkey_ne].
  apply required_env_inr in Hchat as [Hchat Hchat_ne].
  repeat split; done.
Qed.

Lemma init_holds_credentials_witness :
  exists self,
    init environ_complete = inr self
    /\ api_key self = "secret"
    /\ headers self !! "kur-api-key" = Some "secret".
Proof.
  eexists. split; [reflexivity|]. split; [reflexivity|].
  destruct (init_holds_credentials environ_complete _ eq_refl) as (_ & _ & _ & _ & Hheader).
  exact Hheader.
Defined.

(** [main] reaches [process_csv] exactly when both credentials are set and
    not empty.  Otherwise it raises [ValueError] before anything is submitted,
    for the API key when that is missing or empty, else for the chat
    identifier, whatever the service and the input file hold. *)
Lemma main_requires_credentials (environ : gmap string string) (repr : value -> string)
    (net : network) (rounds_in_budget : nat) (companies : DataFrame) :
  ((exists key chat,
      environ !! "KURATION_API_KEY" = Some key /\ key <> ""
      /\ environ !! "KURATION_CHAT_ID" = Some chat /\ chat <> "") <->
   main environ repr net rounds_in_budget companies
   = inr (process_csv repr net rounds_in_budget companies))
  /\ (environ !! "KURATION_API_KEY" = None \/ environ !! "KURATION_API_KEY" = Some "" ->
      main environ repr net rounds_in_budget companies
      = inl (ValueError "KURATION_API_KEY environment variable is required"))
  /\ (forall key,
        environ !! "KURATION_API_KEY" = Some key -> key <> "" ->
        environ !! "KURATION_CHAT_ID" = None \/ environ !! "KURATION_CHAT_ID" = Some "" ->
        main environ repr net rounds_in_budget companies
        = inl (ValueError "KURATION_CHAT_ID environment variable is required")).
Proof.
  unfold main, init. split; [split|split].
  - intros (key & chat & Hkey & Hkey_ne & Hchat & Hchat_ne).
    rewrite (proj2 (required_env_inr environ _ key)) by done.
    by rewrite (proj2 (required_env_inr environ _ chat)).
  - destruct (required_env environ "KURATION_API_KEY") as [e|key] eqn:Hkey; [discriminate|].
    destruct (required_env environ "KURATION_CHAT_ID") as [e|chat] eqn:Hchat; [discriminate|].
    intros _. apply required_env_inr in Hkey as [Hkey Hkey_ne].
    apply required_env_inr in Hchat as [Hchat Hchat_ne]. by exists key, chat.
  - unfold required_env. by intros [->| ->].
  - intros key Hkey Hkey_ne Hchat.
    rewrite (proj2 (required_env_inr environ _ key)) by done.
    unfold required_env. by destruct Hchat as [->| ->].
Qed.

Lemma main_requires_credentials_witness :
  main environ_without_chat repr_plain net_all_resolved 3 two_companies
  = inl (ValueError "KURATION_CHAT_ID environment variable is required").
Proof.
  refine (proj2 (proj2 (main_requires_credentials environ_without_chat repr_plain
                          net_all_resolved 3 two_companies)) "secret" eq_refl _ _).
  - discriminate.
  - right. reflexivity.
Defined.
